(** * local-translator: the React front end ([src/App.tsx]) and the Ollama
    wire decoder, embedded in Rocq.

    The front end is a single React component.  Its [useState]/[useRef]
    hooks become one record, [AppState]; every event handler becomes a
    function on that record that also returns the backend commands it
    [invoke]s.  An [async] handler is cut at its [await]: one function for
    the synchronous prefix, one per way the promise settles.

    JavaScript strings are sequences of UTF-16 code units, so they are
    modelled as [list N]. *)

From Stdlib Require Import NArith ZArith List Bool Lia String Ascii Decimal.
From Stdlib Require QArith_base.
From Stdlib.Strings Require Import Byte.
From stdpp Require Import base list.
From Equations Require Import Equations.
From Equations.Prop Require Import Logic.
Import ListNotations.

Set Default Proof Using "Type".

(* ===================================================================== *)
(** ** JavaScript strings *)
(* ===================================================================== *)

Module JS.

Abbreviation jsstring := (list N).

(** Literals.  A Rocq string literal is a sequence of UTF-8 bytes;
    [utf8_to_units] decodes it to the UTF-16 code units the JavaScript
    literal of the same text denotes. *)
Fixpoint utf8_to_units (bs : list N) : jsstring :=
  match bs with
  | [] => []
  | b0 :: t0 =>
    if (b0 <? 0x80)%N then b0 :: utf8_to_units t0
    else match t0 with
    | [] => []
    | b1 :: t1 =>
      if (b0 <? 0xE0)%N
      then ((b0 mod 32) * 64 + b1 mod 64)%N :: utf8_to_units t1
      else match t1 with
      | [] => []
      | b2 :: t2 =>
        if (b0 <? 0xF0)%N
        then ((b0 mod 16) * 4096 + (b1 mod 64) * 64 + b2 mod 64)%N
               :: utf8_to_units t2
        else match t2 with
        | [] => []
        | b3 :: t3 =>
          let v := ((b0 mod 8) * 262144 + (b1 mod 64) * 4096
                    + (b2 mod 64) * 64 + b3 mod 64 - 0x10000)%N in
          (0xD800 + v / 1024)%N :: (0xDC00 + v mod 1024)%N :: utf8_to_units t3
        end
      end
    end
  end.

Definition js (s : string) : jsstring :=
  utf8_to_units (map N_of_ascii (list_ascii_of_string s)).

(** [Number.prototype.toString()] on a non-negative integer. *)
Fixpoint uint_units (d : Decimal.uint) : jsstring :=
  match d with
  | Decimal.Nil => []
  | Decimal.D0 d => 48%N :: uint_units d
  | Decimal.D1 d => 49%N :: uint_units d
  | Decimal.D2 d => 50%N :: uint_units d
  | Decimal.D3 d => 51%N :: uint_units d
  | Decimal.D4 d => 52%N :: uint_units d
  | Decimal.D5 d => 53%N :: uint_units d
  | Decimal.D6 d => 54%N :: uint_units d
  | Decimal.D7 d => 55%N :: uint_units d
  | Decimal.D8 d => 56%N :: uint_units d
  | Decimal.D9 d => 57%N :: uint_units d
  end.

Definition number_toString (n : N) : jsstring := uint_units (N.to_uint n).

(** ECMAScript [LineTerminator] and [WhiteSpace]; their union is what
    [String.prototype.trim] strips and what [\s] matches. *)
Definition is_line_terminator (c : N) : bool :=
  existsb (N.eqb c) [0x0A; 0x0D; 0x2028; 0x2029]%N.

Definition is_js_whitespace (c : N) : bool :=
  existsb (N.eqb c)
    [0x09; 0x0B; 0x0C; 0x20; 0xA0; 0x1680; 0x202F; 0x205F; 0x3000; 0xFEFF]%N
  || ((0x2000 <=? c)%N && (c <=? 0x200A)%N)
  || is_line_terminator c.

Fixpoint trimStart (s : jsstring) : jsstring :=
  match s with
  | [] => []
  | c :: s' => if is_js_whitespace c then trimStart s' else s
  end.

Definition trimEnd (s : jsstring) : jsstring := rev (trimStart (rev s)).

Definition trim (s : jsstring) : jsstring := trimEnd (trimStart s).

(** Truthiness of a string: the empty string is the only falsy one. *)
Definition truthy (s : jsstring) : bool :=
  match s with [] => false | _ :: _ => true end.

(** [s.split("\n")]: never the empty array, [""] splits to [[""]]. *)
Fixpoint split_nl (s : jsstring) : list jsstring :=
  match s with
  | [] => [[]]
  | c :: s' =>
    if (c =? 0x0A)%N then [] :: split_nl s'
    else match split_nl s' with
         | l :: ls => (c :: l) :: ls
         | [] => [[c]]
         end
  end.

(** [parts.join(sep)]. *)
Fixpoint join (sep : jsstring) (parts : list jsstring) : jsstring :=
  match parts with
  | [] => []
  | [p] => p
  | p :: rest => p ++ sep ++ join sep rest
  end.

Definition jsstring_eqb (a b : jsstring) : bool :=
  bool_decide (a = b).

End JS.
Import JS.

(* ===================================================================== *)
(** ** Regular expressions

    The regular-expression literals of [App.tsx] use only literals,
    character classes, alternation, [?], [*], [+], [{1,2}] and the anchors
    [^] and [$] (no back-references, no look-around), so [test] is
    language membership.  It is decided with Brzozowski derivatives. *)
(* ===================================================================== *)

Module Regex.

Inductive cclass : Type :=
| CLit (c : N)              (* a literal character *)
| COneOf (cs : list N)      (* [abc] *)
| CRange (lo hi : N)        (* [a-z] *)
| CSpace                    (* \s *)
| CDigit                    (* \d *)
| CDot                      (* . *)
| CAll.                     (* any code unit; only for an open end *)

Inductive regex : Type :=
| RNone
| REps
| RCls (k : cclass)
| RCat (r1 r2 : regex)
| RAlt (r1 r2 : regex)
| RStar (r : regex).

Definition ROpt (r : regex) : regex := RAlt r REps.
Definition RPlus (r : regex) : regex := RCat r (RStar r).
Definition RStr (s : jsstring) : regex :=
  fold_right (fun c r => RCat (RCls (CLit c)) r) REps s.
Definition RSeq (rs : list regex) : regex := fold_right RCat REps rs.
Definition RAlts (rs : list regex) : regex := fold_right RAlt RNone rs.

(** Case folding of the [i] flag without the [u] flag ([Canonicalize]): the
    upper-case mapping, except that a code unit outside ASCII never folds
    into ASCII.  Every literal and class member of the patterns below is
    either ASCII or a kana/kanji character, which has no case mapping, so
    folding ASCII letters is all that can make two code units meet. *)
Definition canonicalize (c : N) : N :=
  if (0x61 <=? c)%N && (c <=? 0x7A)%N then (c - 0x20)%N else c.

Definition same_char (icase : bool) (x c : N) : bool :=
  if icase then (canonicalize x =? canonicalize c)%N else (x =? c)%N.

Definition cclass_match (icase : bool) (k : cclass) (c : N) : bool :=
  match k with
  | CLit x => same_char icase x c
  | COneOf xs => existsb (fun x => same_char icase x c) xs
  | CRange lo hi =>
      ((lo <=? c)%N && (c <=? hi)%N)
      || (icase && (((lo <=? canonicalize c)%N && (canonicalize c <=? hi)%N)
                    || ((lo <=? c + 0x20)%N && (c + 0x20 <=? hi)%N
                        && (0x41 <=? c)%N && (c <=? 0x5A)%N)))
  | CSpace => is_js_whitespace c
  | CDigit => (0x30 <=? c)%N && (c <=? 0x39)%N
  | CDot => negb (is_line_terminator c)
  | CAll => true
  end.

Fixpoint nullable (r : regex) : bool :=
  match r with
  | RNone => false
  | REps => true
  | RCls _ => false
  | RCat r1 r2 => nullable r1 && nullable r2
  | RAlt r1 r2 => nullable r1 || nullable r2
  | RStar _ => true
  end.

Fixpoint deriv (icase : bool) (c : N) (r : regex) : regex :=
  match r with
  | RNone => RNone
  | REps => RNone
  | RCls k => if cclass_match icase k c then REps else RNone
  | RCat r1 r2 =>
      if nullable r1
      then RAlt (RCat (deriv icase c r1) r2) (deriv icase c r2)
      else RCat (deriv icase c r1) r2
  | RAlt r1 r2 => RAlt (deriv icase c r1) (deriv icase c r2)
  | RStar r1 => RCat (deriv icase c r1) (RStar r1)
  end.

Fixpoint accepts (icase : bool) (r : regex) (s : jsstring) : bool :=
  match s with
  | [] => nullable r
  | c :: s' => accepts icase (deriv icase c r) s'
  end.

(** The language of a pattern, the reference for [accepts]. *)
Inductive matches (icase : bool) : regex -> jsstring -> Prop :=
| matches_eps : matches icase REps []
| matches_cls k c :
    cclass_match icase k c = true -> matches icase (RCls k) [c]
| matches_cat r1 r2 s1 s2 :
    matches icase r1 s1 -> matches icase r2 s2 ->
    matches icase (RCat r1 r2) (s1 ++ s2)
| matches_alt_l r1 r2 s : matches icase r1 s -> matches icase (RAlt r1 r2) s
| matches_alt_r r1 r2 s : matches icase r2 s -> matches icase (RAlt r1 r2) s
| matches_star_nil r : matches icase (RStar r) []
| matches_star_cons r s1 s2 :
    matches icase r s1 -> matches icase (RStar r) s2 ->
    matches icase (RStar r) (s1 ++ s2).

(** [/^r$/.test(s)] and [/^r/.test(s)]. *)
Definition test_whole (icase : bool) (r : regex) (s : jsstring) : bool :=
  accepts icase r s.

Definition test_prefix (icase : bool) (r : regex) (s : jsstring) : bool :=
  accepts icase (RCat r (RStar (RCls CAll))) s.

End Regex.
Import Regex.

(* ===================================================================== *)
(** ** Pure helpers of [App.tsx] *)
(* ===================================================================== *)

(** [String.prototype.charAt]: the empty string when out of range. *)
Definition charAt (s : jsstring) (i : nat) : jsstring :=
  match s !! i with Some c => [c] | None => [] end.

Definition re_Key : regex := RCat (RStr (js "Key")) (RCls (CRange 0x41 0x5A)).
Definition re_Digit : regex := RCat (RStr (js "Digit")) (RCls (CRange 0x30 0x39)).
Definition re_F : regex :=
  RSeq [RCls (CLit 0x46); RCls CDigit; ROpt (RCls CDigit)].

(** A decimal digit, [[0-9]]. *)
Definition is_digit (c : N) : Prop := (0x30 <= c <= 0x39)%N.

(** The own properties of [specialMap]; every key maps to itself. *)
Definition specialMap : list jsstring :=
  map js ["Space"; "Enter"; "Backspace"; "Tab"; "Escape"; "Delete"; "Home";
          "End"; "PageUp"; "PageDown"; "ArrowUp"; "ArrowDown"; "ArrowLeft";
          "ArrowRight"; "Insert"]%string.

(** What [specialMap[code]] can read: one of the strings of the literal, or
    a property the literal inherits from [Object.prototype], which is a
    built-in function or, for [__proto__], [Object.prototype] itself. *)
Inductive JsValue : Type :=
| VString (s : jsstring)
| VFunction (name : jsstring)
| VObjectPrototype.

(** [!!v]: a string is truthy when it is not empty, an object always. *)
Definition truthy_value (v : JsValue) : bool :=
  match v with
  | VString s => truthy s
  | VFunction _ | VObjectPrototype => true
  end.

(** The properties of [Object.prototype] (ECMA-262 20.1.3 and B.2.2), each
    function under the [name] it carries. *)
Definition Object_prototype : list (jsstring * JsValue) :=
  [(js "constructor", VFunction (js "Object"));
   (js "__defineGetter__", VFunction (js "__defineGetter__"));
   (js "__defineSetter__", VFunction (js "__defineSetter__"));
   (js "hasOwnProperty", VFunction (js "hasOwnProperty"));
   (js "__lookupGetter__", VFunction (js "__lookupGetter__"));
   (js "__lookupSetter__", VFunction (js "__lookupSetter__"));
   (js "isPrototypeOf", VFunction (js "isPrototypeOf"));
   (js "propertyIsEnumerable", VFunction (js "propertyIsEnumerable"));
   (js "toString", VFunction (js "toString"));
   (js "valueOf", VFunction (js "valueOf"));
   (js "__proto__", VObjectPrototype);
   (js "toLocaleString", VFunction (js "toLocaleString"))].

(** [specialMap[code]]: an own property first, then the prototype chain;
    [None] is [undefined]. *)
Definition specialMap_get (code : jsstring) : option JsValue :=
  if bool_decide (code ∈ specialMap) then Some (VString code)
  else snd <$> List.find (fun p => jsstring_eqb p.1 code) Object_prototype.

(** [mapKeyToShortcutString]; [None] is [null].  The declared result type
    is [string | null], but the last line hands out whatever the lookup
    finds, so the result is a value. *)
Definition mapKeyToShortcutString (code : jsstring) : option JsValue :=
  if test_whole false re_Key code then Some (VString (charAt code 3))
  else if test_whole false re_Digit code then Some (VString (charAt code 5))
  else if test_whole false re_F code then Some (VString code)
  else
    match specialMap_get code with
    | Some v => if truthy_value v then Some v else None
    | None => None
    end.

(** The engine under the component.  [Function.prototype.toString] of a
    built-in function is implementation-defined within the [NativeFunction]
    grammar (ECMA-262 20.2.3.5), so the text is left to the engine;
    [nativeFunctionSource name] is the text for the built-in called
    [name]. *)
Class Engine : Type := {
  nativeFunctionSource : jsstring -> jsstring
}.

(** The text of V8, the engine of WebView2; the closed examples run on
    it. *)
#[global] Instance V8 : Engine := {|
  nativeFunctionSource name := js "function " ++ name ++ js "() { [native code] }"
|}.

(** [ToString], as [Array.prototype.join] applies it to each element. *)
Definition ToString `{Engine} (v : JsValue) : jsstring :=
  match v with
  | VString s => s
  | VFunction name => nativeFunctionSource name
  | VObjectPrototype => js "[object Object]"
  end.

(** [NA_PATTERNS]:
    [/^[-*]?\s*(該当なし|特にありません|特になし|なし|ありません|N\/?A|None|No .+ found|No .+ detected)\.?\s*$/i] *)
Definition NA_PATTERNS : regex :=
  RSeq [ ROpt (RCls (COneOf (js "-*")));
         RStar (RCls CSpace);
         RAlts [ RStr (js "該当なし");
                 RStr (js "特にありません");
                 RStr (js "特になし");
                 RStr (js "なし");
                 RStr (js "ありません");
                 RSeq [RStr (js "N"); ROpt (RStr (js "/")); RStr (js "A")];
                 RStr (js "None");
                 RSeq [RStr (js "No "); RPlus (RCls CDot); RStr (js " found")];
                 RSeq [RStr (js "No "); RPlus (RCls CDot); RStr (js " detected")] ];
         ROpt (RCls (CLit 0x2E));
         RStar (RCls CSpace) ].

Definition NA_PATTERNS_test (s : jsstring) : bool := test_whole true NA_PATTERNS s.

(** [/^##\s+/.test(line)] *)
Definition is_heading (line : jsstring) : bool :=
  test_prefix false (RCat (RStr (js "##")) (RPlus (RCls CSpace))) line.

(** [contentLines.length === 0 || contentLines.every(l => NA_PATTERNS.test(l.trim()))];
    [every] of the empty array is [true]. *)
Definition allNA (sectionLines : list jsstring) : bool :=
  let contentLines := filter (fun l => trim l ≠ []) sectionLines in
  bool_decide (length contentLines = 0)
  || forallb (fun l => NA_PATTERNS_test (trim l)) contentLines.

(** The inner [while] of [filterEmptySections]: from index [i], push lines
    onto [sectionLines] up to the next heading or the end of the array. *)
Equations? section_scan (lines : list jsstring) (i : nat) (sectionLines : list jsstring)
  : nat * list jsstring by wf (length lines - i) lt :=
  section_scan lines i sectionLines with decide (i < length lines) := {
    | left _ :=
        if negb (is_heading (lines !!! i))
        then section_scan lines (S i) (sectionLines ++ [lines !!! i])
        else (i, sectionLines);
    | right _ := (i, sectionLines) }.
Proof. lia. Qed.

(** The outer [while]: [i] is the loop index, [result] the output array. *)
Equations? filter_loop (lines : list jsstring) (i : nat) (result : list jsstring)
  : list jsstring by wf (length lines - i) lt :=
  filter_loop lines i result with decide (i < length lines) := {
    | left _ :=
        if is_heading (lines !!! i) then
          let heading := lines !!! i in
          let sectionLines := (section_scan lines (S i) []).2 in
          filter_loop lines (section_scan lines (S i) []).1
            (if negb (allNA sectionLines)
             then result ++ heading :: sectionLines
             else result)
        else filter_loop lines (S i) (result ++ [lines !!! i]);
    | right _ := result }.
Proof.
  - assert (Hge : forall (ls : list jsstring) j acc,
               j <= (section_scan ls j acc).1 /\
               ((section_scan ls j acc).1 <= length ls \/ (section_scan ls j acc).1 = j)).
    { intros ls j acc. remember (length ls - j) as n eqn:Hn.
      revert j acc Hn. induction n as [n IH] using lt_wf_ind. intros j acc Hn.
      simp section_scan. destruct (decide (j < length ls)) as [Hlt|Hge]; simpl.
      - destruct (negb (is_heading (ls !!! j))); simpl; [|lia].
        destruct (IH (length ls - S j) ltac:(lia) (S j) (acc ++ [ls !!! j]) eq_refl).
        lia.
      - lia. }
    destruct (Hge lines (S i) []) as [H1 H2]. lia.
  - lia.
Qed.

Definition filterEmptySections (markdown : jsstring) : jsstring :=
  let lines := split_nl markdown in
  trim (join (js (String "010" EmptyString)) (filter_loop lines 0 [])).

(** *** [filterEmptySections] read section by section

    The description of the result in terms of sections, to be compared
    with the two loops above. *)

(** A text cut at its [##] headings: the lines before the first heading,
    then every heading paired with the lines up to the next heading. *)
Fixpoint split_sections (lines : list jsstring)
  : list jsstring * list (jsstring * list jsstring) :=
  match lines with
  | [] => ([], [])
  | l :: rest =>
    let '(body, sections) := split_sections rest in
    if is_heading l then ([], (l, body) :: sections) else (l :: body, sections)
  end.

Definition section_lines (s : jsstring * list jsstring) : list jsstring :=
  s.1 :: s.2.

(** Lines of a cut text, in order. *)
Definition unsplit_sections (cut : list jsstring * list (jsstring * list jsstring))
  : list jsstring :=
  cut.1 ++ concat (map section_lines cut.2).

(** A line is substantive when it is not blank and, trimmed, does not
    match the not-applicable patterns. *)
Definition substantive (l : jsstring) : bool :=
  negb (bool_decide (trim l = [])) && negb (NA_PATTERNS_test (trim l)).

(** The lines that stay: those before the first heading and every section
    with at least one substantive line. *)
Definition kept_lines (lines : list jsstring) : list jsstring :=
  let '(preamble, sections) := split_sections lines in
  preamble
  ++ concat (map section_lines
               (List.filter (fun s => existsb substantive s.2) sections)).

(** A text whose lines are [intro], a blank line, a heading and a
    not-applicable line. *)
Definition markdown_with_blank_line : jsstring :=
  js "intro

## A
N/A".

(* ===================================================================== *)
(** ** The state of [App] *)
(* ===================================================================== *)

Inductive Provider : Type := ollama | lmstudio.

Record Settings : Type := {
  provider : Provider;
  endpoint : jsstring;
  model : jsstring;
  targetLang : jsstring;
  shortcut : jsstring;
}.

Record TranslateResponse : Type := {
  translated_text : jsstring;
  detected_lang : option jsstring;    (* [string | null] *)
}.

Module HistoryItem.
Record t : Type := {
  id : jsstring;
  sourceText : jsstring;
  translatedText : jsstring;
  targetLang : jsstring;
  timestamp : N;
}.
End HistoryItem.

(** The [request] argument of [invoke("translate", ...)]. *)
Module TranslateRequest.
Record t : Type := {
  text : jsstring;
  source_lang : jsstring;
  target_lang : jsstring;
  provider : Provider;
  endpoint : jsstring;
  model : jsstring;
}.
End TranslateRequest.

(** The [request] argument of [invoke("explain", ...)]. *)
Module ExplainRequest.
Record t : Type := {
  source_text : jsstring;
  source_lang : jsstring;
  target_lang : jsstring;
  provider : Provider;
  endpoint : jsstring;
  model : jsstring;
}.
End ExplainRequest.

(** [explanationCacheRef.current], when not [null]. *)
Record ExplanationCache : Type := {
  source : jsstring;
  explanation : jsstring;
}.

Inductive Theme : Type := light | dark.

(** One field per [useState] and [useRef] of [App].  [settingsId] is the
    identity of the object held in [settings]: every [setSettings] of the
    component stores a freshly built object, and [useCallback]/[useEffect]
    compare dependencies with [Object.is], that is by identity. *)
Record AppState : Type := {
  sourceText : jsstring;
  translatedText : jsstring;
  isLoading : bool;
  error : option jsstring;
  showSettings : bool;
  settings : Settings;
  settingsId : nat;
  isCapturingShortcut : bool;
  autostartEnabled : bool;
  theme : Theme;
  history : list HistoryItem.t;
  showHistory : bool;
  explanationText : jsstring;
  isExplanationOpen : bool;
  isExplanationLoading : bool;
  explanationError : option jsstring;
  isCancelling : bool;
  isExplanationCancelling : bool;
  explanationCacheRef : option ExplanationCache;
  pendingTranslateRef : bool;
}.

(** The state setters.  Each rebuilds the record with one field replaced. *)
Definition setSourceText (v : jsstring) (s : AppState) : AppState :=
  let '(Build_AppState _ b c d e f g h i j k l m n o p q r t u) := s in
  Build_AppState v b c d e f g h i j k l m n o p q r t u.
Definition setTranslatedText (v : jsstring) (s : AppState) : AppState :=
  let '(Build_AppState a _ c d e f g h i j k l m n o p q r t u) := s in
  Build_AppState a v c d e f g h i j k l m n o p q r t u.
Definition setIsLoading (v : bool) (s : AppState) : AppState :=
  let '(Build_AppState a b _ d e f g h i j k l m n o p q r t u) := s in
  Build_AppState a b v d e f g h i j k l m n o p q r t u.
Definition setError (v : option jsstring) (s : AppState) : AppState :=
  let '(Build_AppState a b c _ e f g h i j k l m n o p q r t u) := s in
  Build_AppState a b c v e f g h i j k l m n o p q r t u.
Definition setShowSettings (v : bool) (s : AppState) : AppState :=
  let '(Build_AppState a b c d _ f g h i j k l m n o p q r t u) := s in
  Build_AppState a b c d v f g h i j k l m n o p q r t u.
Definition setSettings (v : Settings) (s : AppState) : AppState :=
  let '(Build_AppState a b c d e _ g h i j k l m n o p q r t u) := s in
  Build_AppState a b c d e v (S g) h i j k l m n o p q r t u.
Definition setIsCapturingShortcut (v : bool) (s : AppState) : AppState :=
  let '(Build_AppState a b c d e f g _ i j k l m n o p q r t u) := s in
  Build_AppState a b c d e f g v i j k l m n o p q r t u.
Definition setAutostartEnabled (v : bool) (s : AppState) : AppState :=
  let '(Build_AppState a b c d e f g h _ j k l m n o p q r t u) := s in
  Build_AppState a b c d e f g h v j k l m n o p q r t u.
Definition setTheme (v : Theme) (s : AppState) : AppState :=
  let '(Build_AppState a b c d e f g h i _ k l m n o p q r t u) := s in
  Build_AppState a b c d e f g h i v k l m n o p q r t u.
Definition setHistory (v : list HistoryItem.t) (s : AppState) : AppState :=
  let '(Build_AppState a b c d e f g h i j _ l m n o p q r t u) := s in
  Build_AppState a b c d e f g h i j v l m n o p q r t u.
Definition setShowHistory (v : bool) (s : AppState) : AppState :=
  let '(Build_AppState a b c d e f g h i j k _ m n o p q r t u) := s in
  Build_AppState a b c d e f g h i j k v m n o p q r t u.
Definition setExplanationText (v : jsstring) (s : AppState) : AppState :=
  let '(Build_AppState a b c d e f g h i j k l _ n o p q r t u) := s in
  Build_AppState a b c d e f g h i j k l v n o p q r t u.
Definition setIsExplanationOpen (v : bool) (s : AppState) : AppState :=
  let '(Build_AppState a b c d e f g h i j k l m _ o p q r t u) := s in
  Build_AppState a b c d e f g h i j k l m v o p q r t u.
Definition setIsExplanationLoading (v : bool) (s : AppState) : AppState :=
  let '(Build_AppState a b c d e f g h i j k l m n _ p q r t u) := s in
  Build_AppState a b c d e f g h i j k l m n v p q r t u.
Definition setExplanationError (v : option jsstring) (s : AppState) : AppState :=
  let '(Build_AppState a b c d e f g h i j k l m n o _ q r t u) := s in
  Build_AppState a b c d e f g h i j k l m n o v q r t u.
Definition setIsCancelling (v : bool) (s : AppState) : AppState :=
  let '(Build_AppState a b c d e f g h i j k l m n o p _ r t u) := s in
  Build_AppState a b c d e f g h i j k l m n o p v r t u.
Definition setIsExplanationCancelling (v : bool) (s : AppState) : AppState :=
  let '(Build_AppState a b c d e f g h i j k l m n o p q _ t u) := s in
  Build_AppState a b c d e f g h i j k l m n o p q v t u.
Definition setExplanationCacheRef (v : option ExplanationCache) (s : AppState) : AppState :=
  let '(Build_AppState a b c d e f g h i j k l m n o p q r _ u) := s in
  Build_AppState a b c d e f g h i j k l m n o p q r v u.
Definition setPendingTranslateRef (v : bool) (s : AppState) : AppState :=
  let '(Build_AppState a b c d e f g h i j k l m n o p q r t _) := s in
  Build_AppState a b c d e f g h i j k l m n o p q r t v.

(** [{ ...prev, field: v }] on [Settings]. *)
Definition with_provider_endpoint (p : Provider) (ep : jsstring) (s : Settings) : Settings :=
  {| provider := p; endpoint := ep; model := model s;
     targetLang := targetLang s; shortcut := shortcut s |}.
Definition with_endpoint (v : jsstring) (s : Settings) : Settings :=
  {| provider := provider s; endpoint := v; model := model s;
     targetLang := targetLang s; shortcut := shortcut s |}.
Definition with_model (v : jsstring) (s : Settings) : Settings :=
  {| provider := provider s; endpoint := endpoint s; model := v;
     targetLang := targetLang s; shortcut := shortcut s |}.
Definition with_targetLang (v : jsstring) (s : Settings) : Settings :=
  {| provider := provider s; endpoint := endpoint s; model := model s;
     targetLang := v; shortcut := shortcut s |}.
Definition with_shortcut (v : jsstring) (s : Settings) : Settings :=
  {| provider := provider s; endpoint := endpoint s; model := model s;
     targetLang := targetLang s; shortcut := v |}.

Definition DEFAULT_SETTINGS (isMac : bool) : Settings :=
  {| provider := ollama;
     endpoint := js "http://localhost:11434";
     model := js "llama3";
     targetLang := js "Japanese";
     shortcut := if isMac then js "Super+Alt+L" else js "Ctrl+Alt+L" |}.

(** The state of the first render, given what the three [useState]
    initialisers read back from [localStorage]. *)
Definition initial_state (saved_settings : Settings) (saved_theme : Theme)
    (saved_history : list HistoryItem.t) : AppState :=
  {| sourceText := []; translatedText := []; isLoading := false; error := None;
     showSettings := false; settings := saved_settings; settingsId := 0;
     isCapturingShortcut := false; autostartEnabled := false;
     theme := saved_theme; history := saved_history; showHistory := false;
     explanationText := []; isExplanationOpen := false;
     isExplanationLoading := false; explanationError := None;
     isCancelling := false; isExplanationCancelling := false;
     explanationCacheRef := None; pendingTranslateRef := false |}.

(** The state after start-up with the default settings and nothing saved. *)
Definition fresh_state : AppState :=
  initial_state (DEFAULT_SETTINGS false) light [].

(** The backend commands reached through [invoke]. *)
Inductive Command : Type :=
| translate (request : TranslateRequest.t)
| explain (request : ExplainRequest.t)
| cancel_translation
| cancel_explanation
| update_shortcut (shortcut : jsstring)
| get_clipboard_text
| set_clipboard_text (text : jsstring)
| get_autostart_enabled
| set_autostart_enabled (enabled : bool).

Record KeyboardEvent : Type := {
  key : jsstring;
  code : jsstring;
  ctrlKey : bool;
  shiftKey : bool;
  altKey : bool;
  metaKey : bool;
}.

(* ===================================================================== *)
(** ** The handlers of [App]

    A handler maps the state to the new state and the list of commands it
    [invoke]s, in order. *)
(* ===================================================================== *)

Definition msg_autostart_failed : jsstring := js "自動起動の設定に失敗しました: ".
Definition msg_shortcut_failed : jsstring := js "ショートカットの設定に失敗しました: ".
Definition msg_translation_cancelled : jsstring := js "翻訳がキャンセルされました".
Definition msg_explanation_cancelled : jsstring := js "解説がキャンセルされました".
Definition msg_clipboard_read_failed : jsstring := js "クリップボードの読み取りに失敗しました".
Definition msg_clipboard_write_failed : jsstring := js "クリップボードへのコピーに失敗しました".

Definition toggleTheme (st : AppState) : AppState :=
  setTheme (match theme st with light => dark | dark => light end) st.

(** [toggleAutostart], up to the [await]. *)
Definition toggleAutostart (st : AppState) : AppState * list Command :=
  let newValue := negb (autostartEnabled st) in
  (st, [set_autostart_enabled newValue]).
Definition toggleAutostart_resolved (newValue : bool) (st : AppState) : AppState :=
  setAutostartEnabled newValue st.
Definition toggleAutostart_rejected (e : jsstring) (st : AppState) : AppState :=
  setError (Some (msg_autostart_failed ++ e)) st.

(** The two effects that [invoke] on mount. *)
Definition mount_effects (st : AppState) : AppState * list Command :=
  (st, [get_autostart_enabled; update_shortcut (shortcut (settings st))]).

(** The [keydown] handler installed while [isCapturingShortcut] holds. *)
Definition modifierKeys : list jsstring :=
  map js ["Control"; "Shift"; "Alt"; "Meta"]%string.

Definition shortcut_parts (e : KeyboardEvent) : list jsstring :=
  (if ctrlKey e then [js "Ctrl"] else [])
  ++ (if shiftKey e then [js "Shift"] else [])
  ++ (if altKey e then [js "Alt"] else [])
  ++ (if metaKey e then [js "Super"] else []).

Definition shortcut_capture_handler `{Engine} (e : KeyboardEvent) (st : AppState)
  : AppState * list Command :=
  if bool_decide (key e ∈ modifierKeys) then (st, [])
  else
    let parts := shortcut_parts e in
    match mapKeyToShortcutString (code e) with
    | None => (st, [])
    | Some keyName =>
      if negb (truthy_value keyName) then (st, [])
      else
        let shortcutStr := join (js "+") (parts ++ [ToString keyName]) in
        (setIsCapturingShortcut false st, [update_shortcut shortcutStr])
    end.

(** [.then(() => setSettings((prev) => ({ ...prev, shortcut: shortcutStr })))] *)
Definition update_shortcut_resolved (shortcutStr : jsstring) (st : AppState) : AppState :=
  setSettings (with_shortcut shortcutStr (settings st)) st.
(** [.catch((err) => setError(`ショートカットの設定に失敗しました: ${err}`))] *)
Definition update_shortcut_rejected (err : jsstring) (st : AppState) : AppState :=
  setError (Some (msg_shortcut_failed ++ err)) st.

(** [addToHistory]; the two arguments [now_id] and [now_ts] are the values
    of the two [Date.now()] calls. *)
Definition addToHistory (sourceText translatedText targetLang : jsstring)
    (now_id now_ts : N) (st : AppState) : AppState :=
  let newItem :=
    {| HistoryItem.id := number_toString now_id;
       HistoryItem.sourceText := sourceText;
       HistoryItem.translatedText := translatedText;
       HistoryItem.targetLang := targetLang;
       HistoryItem.timestamp := now_ts |} in
  setHistory (take 50 (newItem :: history st)) st.

(** [handleTranslate], up to the [await].  [textToTranslate] is [None] for
    a call without argument. *)
Definition handleTranslate (textToTranslate : option jsstring) (st : AppState)
  : AppState * list Command :=
  let text :=
    match textToTranslate with
    | Some t => if truthy t then t else sourceText st
    | None => sourceText st
    end in
  if negb (truthy (trim text)) then (st, [])
  else
    let st := setIsLoading true st in
    let st := setError None st in
    let st := setTranslatedText [] st in
    let st := setExplanationText [] st in
    let st := setIsExplanationOpen false st in
    let st := setExplanationError None st in
    let st := setExplanationCacheRef None st in
    (st, [translate
            {| TranslateRequest.text := text;
               TranslateRequest.source_lang := js "auto";
               TranslateRequest.target_lang := targetLang (settings st);
               TranslateRequest.provider := provider (settings st);
               TranslateRequest.endpoint := endpoint (settings st);
               TranslateRequest.model := model (settings st) |}]).

(** The rest of [handleTranslate] once the promise settles; [text] and
    [targetLang] are the values its closure captured before the [await]. *)
Definition handleTranslate_resolved (text targetLang : jsstring)
    (response : TranslateResponse) (now_id now_ts : N) (st : AppState) : AppState :=
  let st :=
    if truthy (trim (translated_text response))
    then addToHistory text (translated_text response) targetLang now_id now_ts st
    else st in
  setIsLoading false st.
Definition handleTranslate_rejected (e : jsstring) (st : AppState) : AppState :=
  setIsLoading false (setError (Some e) st).

(** The listeners of the backend events. *)
Definition on_translation_chunk (payload : jsstring) (st : AppState) : AppState :=
  setTranslatedText (translatedText st ++ payload) st.
Definition on_explanation_chunk (payload : jsstring) (st : AppState) : AppState :=
  setExplanationText (explanationText st ++ payload) st.
Definition on_translation_cancelled (st : AppState) : AppState :=
  setError (Some msg_translation_cancelled)
    (setIsCancelling false (setIsLoading false st)).
Definition on_explanation_cancelled (st : AppState) : AppState :=
  setExplanationError (Some msg_explanation_cancelled)
    (setIsExplanationCancelling false (setIsExplanationLoading false st)).
Definition on_translate_selection (payload : jsstring) (st : AppState) : AppState :=
  if truthy payload && truthy (trim payload)
  then setPendingTranslateRef true (setShowSettings false (setSourceText payload st))
  else st.

(** [handleExplain], up to the [await]. *)
Definition handleExplain (st : AppState) : AppState * list Command :=
  match explanationCacheRef st with
  | Some cache =>
    if jsstring_eqb (source cache) (sourceText st)
    then (setExplanationText (explanation cache) st, [])
    else
      (setExplanationText [] (setExplanationError None (setIsExplanationLoading true st)),
       [explain
          {| ExplainRequest.source_text := sourceText st;
             ExplainRequest.source_lang := js "auto";
             ExplainRequest.target_lang := targetLang (settings st);
             ExplainRequest.provider := provider (settings st);
             ExplainRequest.endpoint := endpoint (settings st);
             ExplainRequest.model := model (settings st) |}])
  | None =>
      (setExplanationText [] (setExplanationError None (setIsExplanationLoading true st)),
       [explain
          {| ExplainRequest.source_text := sourceText st;
             ExplainRequest.source_lang := js "auto";
             ExplainRequest.target_lang := targetLang (settings st);
             ExplainRequest.provider := provider (settings st);
             ExplainRequest.endpoint := endpoint (settings st);
             ExplainRequest.model := model (settings st) |}])
  end.
(** [sourceText] is the value the closure captured before the [await]. *)
Definition handleExplain_resolved (sourceText response_explanation : jsstring)
    (st : AppState) : AppState :=
  setIsExplanationLoading false
    (setExplanationCacheRef
       (Some {| source := sourceText; explanation := response_explanation |}) st).
Definition handleExplain_rejected (e : jsstring) (st : AppState) : AppState :=
  setIsExplanationLoading false (setExplanationError (Some e) st).

Definition toggleExplanation (st : AppState) : AppState * list Command :=
  let willOpen := negb (isExplanationOpen st) in
  let st' := setIsExplanationOpen willOpen st in
  if willOpen && negb (truthy (explanationText st)) && truthy (sourceText st)
  then handleExplain st'
  else (st', []).

Definition handleCancelTranslation (st : AppState) : AppState * list Command :=
  (setIsCancelling true st, [cancel_translation]).
Definition handleCancelTranslation_rejected (st : AppState) : AppState :=
  setIsCancelling false st.
Definition handleCancelExplanation (st : AppState) : AppState * list Command :=
  (setIsExplanationCancelling true st, [cancel_explanation]).
Definition handleCancelExplanation_rejected (st : AppState) : AppState :=
  setIsExplanationCancelling false st.

Definition handlePaste (st : AppState) : AppState * list Command :=
  (st, [get_clipboard_text]).
Definition handlePaste_resolved (text : jsstring) (st : AppState) : AppState :=
  setSourceText text st.
Definition handlePaste_rejected (st : AppState) : AppState :=
  setError (Some msg_clipboard_read_failed) st.
Definition handleCopy (st : AppState) : AppState * list Command :=
  (st, [set_clipboard_text (translatedText st)]).
Definition handleCopy_rejected (st : AppState) : AppState :=
  setError (Some msg_clipboard_write_failed) st.

Definition handleKeyDown (e : KeyboardEvent) (st : AppState) : AppState * list Command :=
  if jsstring_eqb (key e) (js "Enter") && (ctrlKey e || metaKey e)
  then handleTranslate None st
  else (st, []).

Definition handleSelectHistory (item : HistoryItem.t) (st : AppState) : AppState :=
  let st := setSourceText (HistoryItem.sourceText item) st in
  let st := setTranslatedText (HistoryItem.translatedText item) st in
  let st := setSettings (with_targetLang (HistoryItem.targetLang item) (settings st)) st in
  setShowHistory false st.
Definition handleDeleteHistory (id : jsstring) (st : AppState) : AppState :=
  setHistory (filter (fun item => HistoryItem.id item ≠ id) (history st)) st.
Definition handleClearHistory (st : AppState) : AppState :=
  setHistory [] st.

Definition onChangeProvider (p : Provider) (st : AppState) : AppState :=
  setSettings
    (with_provider_endpoint p
       (match p with
        | ollama => js "http://localhost:11434"
        | lmstudio => js "http://localhost:1234"
        end) (settings st)) st.

(** The effect with dependencies [[sourceText, handleTranslate]].
    [handleTranslate] is a [useCallback] over [[sourceText, settings,
    addToHistory]] and [addToHistory] never changes, so between two renders
    a dependency differs exactly when [sourceText] differs or [settings]
    holds another object.  React runs the effect body only then. *)
Definition auto_translate_deps_changed (prev next : AppState) : bool :=
  negb (jsstring_eqb (sourceText prev) (sourceText next))
  || negb (Nat.eqb (settingsId prev) (settingsId next)).

Definition auto_translate_effect (prev next : AppState) : AppState * list Command :=
  if auto_translate_deps_changed prev next then
    if pendingTranslateRef next && truthy (trim (sourceText next))
    then handleTranslate (Some (sourceText next)) (setPendingTranslateRef false next)
    else (next, [])
  else (next, []).

(** Everything that can happen to the mounted component: DOM events,
    backend events, and the settling of a pending [invoke].
    [UpdateShortcutResolved] and [UpdateShortcutRejected] settle the
    [update_shortcut] of the capture handler, [InitialShortcutRejected] the
    one issued on mount. *)
Inductive Event : Type :=
| ClickToggleTheme
| ClickToggleAutostart
| SetAutostartResolved (newValue : bool)
| SetAutostartRejected (e : jsstring)
| GetAutostartResolved (enabled : bool)
| GetAutostartRejected (e : jsstring)
| ClickOpenSettings
| ClickCloseSettings
| ClickOpenHistory
| ClickCloseHistory
| ChangeProvider (p : Provider)
| ChangeEndpoint (v : jsstring)
| ChangeModel (v : jsstring)
| ChangeTargetLang (v : jsstring)
| ClickShortcutDisplay
| WindowKeydown (e : KeyboardEvent)
| UpdateShortcutResolved (shortcutStr : jsstring)
| UpdateShortcutRejected (err : jsstring)
| InitialShortcutRejected (e : jsstring)
| ChangeSourceText (v : jsstring)
| TextareaKeydown (e : KeyboardEvent)
| ClickTranslate
| TranslateResolved (text targetLang : jsstring) (response : TranslateResponse)
                    (now_id now_ts : N)
| TranslateRejected (e : jsstring)
| ClickCancelTranslation
| CancelTranslationRejected
| ClickToggleExplanation
| ExplainResolved (sourceText response_explanation : jsstring)
| ExplainRejected (e : jsstring)
| ClickCancelExplanation
| CancelExplanationRejected
| ClickPaste
| PasteResolved (text : jsstring)
| PasteRejected
| ClickCopy
| CopyRejected
| ClickHistoryItem (item : HistoryItem.t)
| ClickDeleteHistory (id : jsstring)
| ClickClearHistory
| TranslationChunk (payload : jsstring)
| ExplanationChunk (payload : jsstring)
| TranslationCancelled
| ExplanationCancelled
| TranslateSelection (payload : jsstring).

(** The handler an event runs. *)
Definition handle `{Engine} (ev : Event) (st : AppState) : AppState * list Command :=
  match ev with
  | ClickToggleTheme => (toggleTheme st, [])
  | ClickToggleAutostart => toggleAutostart st
  | SetAutostartResolved v => (toggleAutostart_resolved v st, [])
  | SetAutostartRejected e => (toggleAutostart_rejected e st, [])
  | GetAutostartResolved v => (setAutostartEnabled v st, [])
  | GetAutostartRejected _ => (st, [])          (* [console.error] only *)
  | ClickOpenSettings => (setShowSettings true st, [])
  | ClickCloseSettings => (setShowSettings false st, [])
  | ClickOpenHistory => (setShowHistory true st, [])
  | ClickCloseHistory => (setShowHistory false st, [])
  | ChangeProvider p => (onChangeProvider p st, [])
  | ChangeEndpoint v => (setSettings (with_endpoint v (settings st)) st, [])
  | ChangeModel v => (setSettings (with_model v (settings st)) st, [])
  | ChangeTargetLang v => (setSettings (with_targetLang v (settings st)) st, [])
  | ClickShortcutDisplay => (setIsCapturingShortcut true st, [])
  | WindowKeydown e =>
      if isCapturingShortcut st then shortcut_capture_handler e st else (st, [])
  | UpdateShortcutResolved s => (update_shortcut_resolved s st, [])
  | UpdateShortcutRejected err => (update_shortcut_rejected err st, [])
  | InitialShortcutRejected _ => (st, [])       (* [console.error] only *)
  | ChangeSourceText v => (setSourceText v st, [])
  | TextareaKeydown e => handleKeyDown e st
  | ClickTranslate => handleTranslate None st
  | TranslateResolved text lang response now_id now_ts =>
      (handleTranslate_resolved text lang response now_id now_ts st, [])
  | TranslateRejected e => (handleTranslate_rejected e st, [])
  | ClickCancelTranslation => handleCancelTranslation st
  | CancelTranslationRejected => (handleCancelTranslation_rejected st, [])
  | ClickToggleExplanation => toggleExplanation st
  | ExplainResolved src expl => (handleExplain_resolved src expl st, [])
  | ExplainRejected e => (handleExplain_rejected e st, [])
  | ClickCancelExplanation => handleCancelExplanation st
  | CancelExplanationRejected => (handleCancelExplanation_rejected st, [])
  | ClickPaste => handlePaste st
  | PasteResolved text => (handlePaste_resolved text st, [])
  | PasteRejected => (handlePaste_rejected st, [])
  | ClickCopy => handleCopy st
  | CopyRejected => (handleCopy_rejected st, [])
  | ClickHistoryItem item => (handleSelectHistory item st, [])
  | ClickDeleteHistory id => (handleDeleteHistory id st, [])
  | ClickClearHistory => (handleClearHistory st, [])
  | TranslationChunk p => (on_translation_chunk p st, [])
  | ExplanationChunk p => (on_explanation_chunk p st, [])
  | TranslationCancelled => (on_translation_cancelled st, [])
  | ExplanationCancelled => (on_explanation_cancelled st, [])
  | TranslateSelection p => (on_translate_selection p st, [])
  end.

(** One turn of the component: the handler, then the render it causes and
    the auto-translate effect of that render. *)
Definition step `{Engine} (st : AppState) (ev : Event) : AppState * list Command :=
  let '(st1, cmds1) := handle ev st in
  let '(st2, cmds2) := auto_translate_effect st st1 in
  (st2, cmds1 ++ cmds2).

Definition run `{Engine} (st : AppState) (evs : list Event) : AppState :=
  fold_left (fun s ev => (step s ev).1) evs st.

(** What the main page shows for [{error && <div className="neu-error">...}]:
    the text inside the error banner, [None] when no banner is rendered. *)
Definition error_banner (st : AppState) : option jsstring :=
  if showSettings st then None
  else match error st with
       | Some e => if truthy e then Some e else None
       | None => None
       end.

(* ===================================================================== *)
(** ** The rest of [App.tsx]: display helpers and what the pages render *)
(* ===================================================================== *)

(** [s.split(sep)] for a separator of one code unit. *)
Fixpoint split_on (sep : N) (s : jsstring) : list jsstring :=
  match s with
  | [] => [[]]
  | c :: s' =>
    if (c =? sep)%N then [] :: split_on sep s'
    else match split_on sep s' with
         | l :: ls => (c :: l) :: ls
         | [] => [[c]]
         end
  end.

(** The callback of [map] in [formatShortcutDisplay]. *)
Definition shortcut_part_label (isMac : bool) (part : jsstring) : jsstring :=
  if isMac then
    if jsstring_eqb part (js "Super") then js "⌘"
    else if jsstring_eqb part (js "Ctrl") then js "⌃"
    else if jsstring_eqb part (js "Alt") then js "⌥"
    else if jsstring_eqb part (js "Shift") then js "⇧"
    else part
  else if jsstring_eqb part (js "Super") then js "Win"
  else part.

(** [formatShortcutDisplay]; [isMac] is the constant of the same name. *)
Definition formatShortcutDisplay (isMac : bool) (shortcut : jsstring) : jsstring :=
  join (if isMac then [] else js " + ")
    (map (shortcut_part_label isMac) (split_on 0x2B shortcut)).

(** [LANGUAGES], as pairs of [code] and [label]. *)
Definition LANGUAGES : list (jsstring * jsstring) :=
  [ (js "Japanese", js "日本語");
    (js "English", js "English");
    (js "Chinese", js "中文");
    (js "Korean", js "한국어");
    (js "French", js "Français");
    (js "German", js "Deutsch");
    (js "Spanish", js "Español") ].

(** [LANGUAGES.find((l) => l.code === targetLang)?.label || targetLang],
    the language shown on a history entry. *)
Definition history_language_label (targetLang : jsstring) : jsstring :=
  match List.find (fun l => jsstring_eqb l.1 targetLang) LANGUAGES with
  | Some l => if truthy l.2 then l.2 else targetLang
  | None => targetLang
  end.

(** A number in a template literal, for an integer. *)
Definition int_toString (z : Z) : jsstring :=
  match z with
  | Z0 => js "0"
  | Zpos p => number_toString (Npos p)
  | Zneg p => 0x2D%N :: number_toString (Npos p)
  end.

(** A Number: a double is a rational, an infinity or [NaN]. *)
Inductive Number : Type :=
| NaN
| Infinity (negative : bool)
| Finite (q : QArith_base.Q).

(** An integral Number. *)
Definition Number_of_Z (z : Z) : Number := Finite (QArith_base.inject_Z z).

(** The time value of [new Date(value)], which is [TimeClip(value)]
    (ECMA-262 21.4.1.31): [None], the [NaN] of an invalid date, when the
    value is not finite or beyond 8.64e15 ms on either side; otherwise the
    value without its fraction. *)
Definition new_Date (value : Number) : option Z :=
  match value with
  | Finite q =>
      let n := QArith_base.Qnum q in
      let d := Zpos (QArith_base.Qden q) in
      if (8640000000000000 * d <? Z.abs n)%Z then None else Some (Z.quot n d)
  | NaN | Infinity _ => None
  end.

(** [a < b] where [a] may be [NaN]: false then. *)
Definition number_lt (a : option Z) (b : Z) : bool :=
  match a with
  | Some x => (x <? b)%Z
  | None => false
  end.

(** A number that may be [NaN] in a template literal. *)
Definition number_text (a : option Z) : jsstring :=
  match a with
  | Some x => int_toString x
  | None => js "NaN"
  end.

Section FormatTimestamp.

(** [date.toLocaleDateString("ja-JP")] of a valid date with the given time
    value; it depends on the time zone of the host. *)
Variable toLocaleDateString : Z -> jsstring.

(** [Date.prototype.toLocaleDateString]: an invalid date reads
    ["Invalid Date"]. *)
Definition Date_toLocaleDateString (date : option Z) : jsstring :=
  match date with
  | Some t => toLocaleDateString t
  | None => js "Invalid Date"
  end.

(** [formatTimestamp]; [now] is the time value of [new Date()], always a
    valid one.  The time value of [date] is an integer or [NaN], with which
    every difference and quotient is [NaN] and every comparison false.
    [Math.floor] of a quotient of integers is the floored division; where
    a difference beyond 2^53 or a quotient is rounded, the rounding is
    monotone and the bounds 1, 60, 24 and 7 are far below, so that no
    comparison changes. *)
Definition formatTimestamp (now : Z) (timestamp : Number) : jsstring :=
  let date := new_Date timestamp in
  let diffMs := (fun t => now - t)%Z <$> date in
  let diffMins := (fun d => d / 60000)%Z <$> diffMs in
  let diffHours := (fun d => d / 3600000)%Z <$> diffMs in
  let diffDays := (fun d => d / 86400000)%Z <$> diffMs in
  if number_lt diffMins 1 then js "たった今"
  else if number_lt diffMins 60 then number_text diffMins ++ js "分前"
  else if number_lt diffHours 24 then number_text diffHours ++ js "時間前"
  else if number_lt diffDays 7 then number_text diffDays ++ js "日前"
  else Date_toLocaleDateString date.

End FormatTimestamp.

(** The button of the action row: [isLoading ? <cancel> : <translate>],
    each with its [disabled] attribute. *)
Inductive ActionButton : Type :=
| TranslateButton (disabled : bool)
| CancelButton (disabled : bool).

(** What the main page renders; the settings page replaces it while
    [showSettings] holds, so nothing of it is rendered then. *)
Definition action_button (st : AppState) : option ActionButton :=
  if showSettings st then None
  else if isLoading st then Some (CancelButton (isCancelling st))
  else Some (TranslateButton (negb (truthy (trim (sourceText st))))).

(** [{translatedText && <button onClick={handleCopy}>}] *)
Definition copy_button (st : AppState) : bool :=
  negb (showSettings st) && truthy (translatedText st).

(** The explanation card, [{translatedText && ...}], and the [disabled]
    attribute of its toggle; [None] when the card is not rendered. *)
Definition explanation_toggle (st : AppState) : option bool :=
  if negb (showSettings st) && truthy (translatedText st)
  then Some (isLoading st) else None.

(** The small cancel button inside the loading row of the card. *)
Definition explanation_cancel_button (st : AppState) : bool :=
  negb (showSettings st) && truthy (translatedText st)
  && isExplanationOpen st
  && (isExplanationLoading st && negb (truthy (explanationText st)))
  && negb (isExplanationCancelling st).

(** The markdown handed to [<Markdown>], [None] when it is not rendered. *)
Definition explanation_markdown (st : AppState) : option jsstring :=
  if negb (showSettings st) && truthy (translatedText st)
     && isExplanationOpen st && truthy (explanationText st)
  then Some (filterEmptySections (explanationText st)) else None.

(** [{history.length > 0 && <button onClick={handleClearHistory}>}] *)
Definition clear_history_button (st : AppState) : bool :=
  negb (showSettings st) && bool_decide (0 < length (history st)).

(* ===================================================================== *)
(** ** The Ollama wire decoder

    The decoder is part of the Rust backend, [src-tauri/src/lib.rs]; its
    definitions below follow section 4.1 of the specification.  The
    response body is a sequence of bytes. *)
(* ===================================================================== *)

Module Ollama.

Abbreviation bytes := (list byte).

#[global] Instance byte_eq_decision : EqDecision byte := Byte.byte_eq_dec.

(** Modelled from the spec: the events a decoder of [src-tauri/src/lib.rs]
    produces (section 3, [TokenEvent]). *)
Inductive TokenEvent : Type :=
| Token (text : bytes)
| End
| Cancelled.

(** Modelled from the spec: what the decoder of [src-tauri/src/lib.rs]
    reads from one line of the response body, [{response: string, done:
    boolean, ...}]. *)
Record OllamaLine : Type := {
  response : bytes;
  done : bool;
}.

(** Modelled from the spec: the state of the Ollama decoder of
    [src-tauri/src/lib.rs] (section 4.1): while consuming, the accumulator
    of bytes received but not yet forming a complete line, and whether any
    byte was ever received; [Stopped] after a line with [done = true]. *)
Inductive DecoderState : Type :=
| Streaming (accumulator : bytes) (received : bool)
| Stopped.

(** Modelled from the spec: what the decoder of [src-tauri/src/lib.rs]
    yields for a whole response: the token events, or a failure when the
    transport ended and zero bytes were ever received. *)
Inductive Outcome : Type :=
| Decoded (events : list TokenEvent)
| EmptyBody.

(** Modelled from the spec: one scan of the accumulator for a newline of
    the decoder of [src-tauri/src/lib.rs]; when found, the line before it
    and the accumulator with the line and its newline removed. *)
Fixpoint take_line (acc : bytes) : option (bytes * bytes) :=
  match acc with
  | [] => None
  | b :: rest =>
    if Byte.eqb b x0a then Some ([], rest)
    else match take_line rest with
         | Some (line, rest') => Some (b :: line, rest')
         | None => None
         end
  end.

Section Decoder.

(** The JSON parser the decoder applies to each line: [Some] for an object
    with a string field [response] and a boolean field [done], [None] when
    parsing fails. *)
Variable parse_line : bytes -> option OllamaLine.

(** Modelled from the spec: the scan loop of the decoder of
    [src-tauri/src/lib.rs].  It slices complete lines off the accumulator
    while there is a newline; a line that fails to parse emits nothing, a
    line with [done = true] emits [End] and stops the decoder, any other
    line emits its [response] as a token.  The result is the events and
    what is left of the accumulator, [None] once stopped. *)
Equations? drain (acc : bytes) : list TokenEvent * option bytes
  by wf (length acc) lt :=
  drain acc with inspect (take_line acc) := {
    | exist _ None _ := ([], Some acc);
    | exist _ (Some (line, rest)) _ :=
        match parse_line line with
        | None => drain rest
        | Some l =>
          if done l then ([End], None)
          else (Token (response l) :: (drain rest).1, (drain rest).2)
        end }.
Proof.
  all: assert (Hlen : forall a l r, take_line a = Some (l, r) -> length r < length a)
    by (induction a as [|b a IH]; simpl; intros l' r' Hq; [discriminate|];
        destruct (Byte.eqb b x0a);
        [ injection Hq as <- <-; lia
        | destruct (take_line a) as [[l0 r0]|] eqn:Ha; [|discriminate];
          injection Hq as <- <-; specialize (IH _ _ eq_refl); lia ]).
  all: eapply Hlen; eauto.
Qed.

(** Modelled from the spec: delivery of one chunk to the decoder of
    [src-tauri/src/lib.rs]: append it to the accumulator and scan; a stopped
    decoder consumes nothing. *)
Definition feed (st : DecoderState) (chunk : bytes)
  : list TokenEvent * DecoderState :=
  match st with
  | Stopped => ([], Stopped)
  | Streaming acc received =>
    let received' := received || bool_decide (chunk ≠ []) in
    match drain (acc ++ chunk) with
    | (events, Some rest) => (events, Streaming rest received')
    | (events, None) => (events, Stopped)
    end
  end.

(** Modelled from the spec: the chunks of a response delivered in order to
    the decoder of [src-tauri/src/lib.rs]. *)
Fixpoint feed_all (st : DecoderState) (chunks : list bytes)
  : list TokenEvent * DecoderState :=
  match chunks with
  | [] => ([], st)
  | chunk :: chunks' =>
    let '(events1, st1) := feed st chunk in
    let '(events2, st2) := feed_all st1 chunks' in
    (events1 ++ events2, st2)
  end.

(** Modelled from the spec: the end of the transport for the decoder of
    [src-tauri/src/lib.rs]: without a [done = true] line [End] is emitted
    anyway, unless zero bytes were ever received. *)
Definition end_of_stream (st : DecoderState) : option (list TokenEvent) :=
  match st with
  | Stopped => Some []
  | Streaming _ true => Some [End]
  | Streaming _ false => None
  end.

(** Modelled from the spec: the Ollama decoder of [src-tauri/src/lib.rs]
    run over a response body delivered as [chunks]. *)
Definition decode (chunks : list bytes) : Outcome :=
  let '(events, st) := feed_all (Streaming [] false) chunks in
  match end_of_stream st with
  | Some tail => Decoded (events ++ tail)
  | None => EmptyBody
  end.

End Decoder.

(** The texts of the tokens of a sequence of events, in order. *)
Definition token_texts (events : list TokenEvent) : list bytes :=
  omap (fun e => match e with Token t => Some t | _ => None end) events.

(** *** A line parser to run the decoder with

    Modelled from the spec: the JSON parser of [src-tauri/src/lib.rs] is a
    library; [parse_ollama_line] below reads JSON objects well enough for
    the bodies of the specification's examples.  [\u] escapes are not read
    (such a line fails to parse). *)

#[warnings="-register-all"]
Inductive json : Type :=
| JNull
| JBool (b : bool)
| JNumber (raw : bytes)
| JString (s : bytes)
| JArray (items : list json)
| JObject (members : list (bytes * json)).

Definition is_json_space (b : byte) : bool :=
  existsb (Byte.eqb b) [x20; x09; x0a; x0d].

Fixpoint skip_space (s : bytes) : bytes :=
  match s with
  | b :: s' => if is_json_space b then skip_space s' else s
  | [] => []
  end.

Definition is_number_byte (b : byte) : bool :=
  existsb (Byte.eqb b)
    (list_byte_of_string "0123456789+-.eE").

Fixpoint span_number (s : bytes) : bytes * bytes :=
  match s with
  | b :: s' =>
    if is_number_byte b
    then let '(n, rest) := span_number s' in (b :: n, rest)
    else ([], s)
  | [] => ([], [])
  end.

(** The characters of a string literal, after its opening quote. *)
Fixpoint string_body (s : bytes) : option (bytes * bytes) :=
  match s with
  | [] => None
  | x22 :: rest => Some ([], rest)
  | x5c :: e :: rest =>
    let unescaped :=
      match e with
      | x22 => Some x22 | x5c => Some x5c | x2f => Some x2f
      | x62 => Some x08 | x66 => Some x0c | x6e => Some x0a
      | x72 => Some x0d | x74 => Some x09
      | _ => None
      end in
    match unescaped, string_body rest with
    | Some c, Some (body, rest') => Some (c :: body, rest')
    | _, _ => None
    end
  | x5c :: [] => None
  | b :: rest =>
    match string_body rest with
    | Some (body, rest') => Some (b :: body, rest')
    | None => None
    end
  end.

Definition expect (word : bytes) (s : bytes) : option bytes :=
  if bool_decide (take (length word) s = word)
  then Some (drop (length word) s) else None.

Fixpoint parse_value (fuel : nat) (s : bytes) : option (json * bytes) :=
  match fuel with
  | 0 => None
  | S fuel' =>
    match skip_space s with
    | x22 :: rest =>
      match string_body rest with
      | Some (str, rest') => Some (JString str, rest')
      | None => None
      end
    | x5b :: rest =>
      match skip_space rest with
      | x5d :: rest' => Some (JArray [], rest')
      | _ =>
        match parse_items fuel' rest with
        | Some (items, rest') => Some (JArray items, rest')
        | None => None
        end
      end
    | x7b :: rest =>
      match skip_space rest with
      | x7d :: rest' => Some (JObject [], rest')
      | _ =>
        match parse_members fuel' rest with
        | Some (members, rest') => Some (JObject members, rest')
        | None => None
        end
      end
    | x74 :: _ =>
      match expect (list_byte_of_string "true") (skip_space s) with
      | Some rest => Some (JBool true, rest) | None => None end
    | x66 :: _ =>
      match expect (list_byte_of_string "false") (skip_space s) with
      | Some rest => Some (JBool false, rest) | None => None end
    | x6e :: _ =>
      match expect (list_byte_of_string "null") (skip_space s) with
      | Some rest => Some (JNull, rest) | None => None end
    | b :: _ =>
      if is_number_byte b
      then let '(n, rest) := span_number (skip_space s) in Some (JNumber n, rest)
      else None
    | [] => None
    end
  end
with parse_items (fuel : nat) (s : bytes) : option (list json * bytes) :=
  match fuel with
  | 0 => None
  | S fuel' =>
    match parse_value fuel' s with
    | Some (v, rest) =>
      match skip_space rest with
      | x2c :: rest' =>
        match parse_items fuel' rest' with
        | Some (vs, rest'') => Some (v :: vs, rest'')
        | None => None
        end
      | x5d :: rest' => Some ([v], rest')
      | _ => None
      end
    | None => None
    end
  end
with parse_members (fuel : nat) (s : bytes) : option (list (bytes * json) * bytes) :=
  match fuel with
  | 0 => None
  | S fuel' =>
    match skip_space s with
    | x22 :: rest =>
      match string_body rest with
      | Some (name, rest1) =>
        match skip_space rest1 with
        | x3a :: rest2 =>
          match parse_value fuel' rest2 with
          | Some (v, rest3) =>
            match skip_space rest3 with
            | x2c :: rest4 =>
              match parse_members fuel' rest4 with
              | Some (ms, rest5) => Some ((name, v) :: ms, rest5)
              | None => None
              end
            | x7d :: rest4 => Some ([(name, v)], rest4)
            | _ => None
            end
          | None => None
          end
        | _ => None
        end
      | None => None
      end
    | _ => None
    end
  end.

Fixpoint member (name : bytes) (members : list (bytes * json)) : option json :=
  match members with
  | [] => None
  | (k, v) :: rest =>
    match member name rest with
    | Some v' => Some v'
    | None => if bool_decide (k = name) then Some v else None
    end
  end.

(** Modelled from the spec: the line parser of [src-tauri/src/lib.rs].
    A line is accepted when it is one JSON object, with nothing but white
    space around it, whose [response] is a string and whose [done] is a
    boolean; other fields are ignored. *)
Definition parse_ollama_line (line : bytes) : option OllamaLine :=
  match parse_value (S (length line)) line with
  | Some (JObject members, rest) =>
    match skip_space rest, member (list_byte_of_string "response") members,
          member (list_byte_of_string "done") members with
    | [], Some (JString r), Some (JBool d) => Some {| response := r; done := d |}
    | _, _, _ => None
    end
  | _ => None
  end.

(** Text with ['] standing for the double quote. *)
Definition json_text (s : string) : bytes :=
  map (fun b => if Byte.eqb b x27 then x22 else b) (list_byte_of_string s).

(** The response body of the specification's example, and the same bytes
    cut in the middle of the first and of the third object. *)
Definition example_body : bytes :=
  json_text "{'response':'Hello','done':false}
{'response':' world','done':false}
{'response':'','done':true}
".

Definition example_chunks : list bytes :=
  [take 10 example_body; take 70 (drop 10 example_body); drop 80 example_body].

End Ollama.

(* ===================================================================== *)
(** * Properties *)
(* ===================================================================== *)

(** ** The helpers on concrete inputs *)

Example js_literal_kana : js "なし" = [0x306A; 0x3057]%N.
Proof. reflexivity. Qed.

Example js_literal_astral : js "😀" = [0xD83D; 0xDE00]%N.
Proof. reflexivity. Qed.

Example trim_both_ends : trim (js "  a b 	
") = js "a b".
Proof. reflexivity. Qed.

Example trim_ideographic_space : trim (0x3000 :: js "なし" ++ [0xFEFF])%N = js "なし".
Proof. reflexivity. Qed.

Example split_nl_keeps_empty_lines :
  split_nl (js "a

b
") = [js "a"; []; js "b"; []].
Proof. reflexivity. Qed.

Example split_nl_empty : split_nl [] = [[]].
Proof. reflexivity. Qed.

Example number_toString_ms : number_toString 1730000000000 = js "1730000000000".
Proof. reflexivity. Qed.

Example is_heading_cases :
  map is_heading (map js ["## a"; "##"; "## "; "### a"; "##a"; " ## a"; "##	x"]%string)
  = [true; false; true; false; false; false; true].
Proof. vm_compute. reflexivity. Qed.

Example NA_PATTERNS_cases :
  map NA_PATTERNS_test
    (map js ["該当なし"; "- なし"; "* N/A."; "none"; "NA"; "n/a  ";
             "No issues found"; "no SLANG detected."; "-  特にありません.";
             "No found"; "No  found"; "特になし。"; "hello"; ""; "-";
             "None of these"]%string)
  = [true; true; true; true; true; true; true; true; true;
     false; false; false; false; false; false; false].
Proof. vm_compute. reflexivity. Qed.

Example mapKeyToShortcutString_cases :
  map mapKeyToShortcutString
    (map js ["KeyA"; "Digit5"; "F12"; "F123"; "Space"; "ShiftLeft"; "Keya"]%string)
  = [Some (VString (js "A")); Some (VString (js "5")); Some (VString (js "F12"));
     None; Some (VString (js "Space")); None; None].
Proof. vm_compute. reflexivity. Qed.

Example mapKeyToShortcutString_inherited :
  map mapKeyToShortcutString
    (map js ["constructor"; "toString"; "__proto__"; "prototype"]%string)
  = [Some (VFunction (js "Object")); Some (VFunction (js "toString"));
     Some VObjectPrototype; None].
Proof. vm_compute. reflexivity. Qed.

Example filterEmptySections_example :
  filterEmptySections (js "intro
## Slang
- N/A

## Words
- break: to rest
### detail
## Context
特になし
")
  = js "intro
## Words
- break: to rest
### detail".
Proof. vm_compute. reflexivity. Qed.

Example shortcut_capture_example `{engine : Engine} :
  shortcut_capture_handler
    {| key := js "k"; code := js "KeyK"; ctrlKey := true; shiftKey := false;
       altKey := true; metaKey := false |}
    (setIsCapturingShortcut true fresh_state)
  = (fresh_state, [update_shortcut (js "Ctrl+Alt+K")]).
Proof. vm_compute. reflexivity. Qed.

Example shortcut_capture_modifier_only `{engine : Engine} :
  shortcut_capture_handler
    {| key := js "Control"; code := js "ControlLeft"; ctrlKey := true;
       shiftKey := false; altKey := false; metaKey := false |}
    (setIsCapturingShortcut true fresh_state)
  = (setIsCapturingShortcut true fresh_state, []).
Proof. vm_compute. reflexivity. Qed.

Example shortcut_capture_inherited `{engine : Engine} :
  shortcut_capture_handler
    {| key := js "x"; code := js "constructor"; ctrlKey := true;
       shiftKey := false; altKey := false; metaKey := false |}
    (setIsCapturingShortcut true fresh_state)
  = (fresh_state,
     [update_shortcut (js "Ctrl+" ++ nativeFunctionSource (js "Object"))]).
Proof. vm_compute. reflexivity. Qed.

(** ** Regular expressions: the matcher decides the language *)

Section RegexFacts.
Variable icase : bool.

Lemma nullable_matches r : nullable r = true <-> matches icase r [].
Proof.
  split.
  - induction r; simpl; intros H; try discriminate.
    + constructor.
    + apply andb_true_iff in H as [H1 H2].
      apply (matches_cat icase r1 r2 [] []); auto.
    + apply orb_true_iff in H as [H|H];
        [apply matches_alt_l|apply matches_alt_r]; auto.
    + constructor.
  - intros H. remember [] as s eqn:Hs. 
    induction H; simpl; try done.
    + apply app_eq_nil in Hs as [-> ->]. by rewrite IHmatches1, IHmatches2.
    + by rewrite IHmatches.
    + rewrite IHmatches by done. apply orb_true_r.
Qed.

Lemma star_cons_inv r c s :
  matches icase (RStar r) (c :: s) ->
  exists s1 s2, s = s1 ++ s2 /\ matches icase r (c :: s1) /\ matches icase (RStar r) s2.
Proof.
  intros H. remember (RStar r) as r' eqn:Hr. remember (c :: s) as s' eqn:Hs.
  revert s Hs. induction H; intros s0 Hs; try discriminate.
  injection Hr as ->. destruct s1 as [|c1 s1].
  - simpl in Hs. by apply IHmatches2.
  - simpl in Hs. injection Hs as -> <-. eauto.
Qed.

Lemma deriv_matches r c s :
  matches icase (deriv icase c r) s <-> matches icase r (c :: s).
Proof.
  revert s. induction r; intros s; simpl.
  - split; intros H; inversion H.
  - split; intros H; inversion H.
  - destruct (cclass_match icase k c) eqn:Hk; split; intros H; inversion H; subst.
    + by constructor.
    + constructor.
    + congruence.
  - split.
    + destruct (nullable r1) eqn:Hn; intros H.
      * inversion H as [| | |? ? ? H1|? ? ? H1| |]; subst.
        -- inversion H1 as [| |? ? s1 s2 Ha Hb| | | |]; subst.
           apply (matches_cat icase r1 r2 (c :: s1) s2); [by apply IHr1|done].
        -- apply (matches_cat icase r1 r2 [] (c :: s));
             [by apply nullable_matches|by apply IHr2].
      * inversion H as [| |? ? s1 s2 H1 H2| | | |]; subst.
        apply (matches_cat icase r1 r2 (c :: s1) s2); [by apply IHr1|done].
    + intros H. inversion H as [| |? ? s1 s2 H1 H2 Hr Hs| | | |]; subst.
      destruct s1 as [|c1 s1]; simpl in Hs.
      * subst s2. apply nullable_matches in H1. rewrite H1.
        apply matches_alt_r. by apply IHr2.
      * injection Hs as -> <-.
        assert (Hc : matches icase (RCat (deriv icase c r1) r2) (s1 ++ s2))
          by (constructor; [by apply IHr1|done]).
        destruct (nullable r1); [by apply matches_alt_l|done].
  - split; intros H; inversion H; subst.
    + apply matches_alt_l. by apply IHr1.
    + apply matches_alt_r. by apply IHr2.
    + apply matches_alt_l. by apply IHr1.
    + apply matches_alt_r. by apply IHr2.
  - split; intros H.
    + inversion H as [| |? ? s1 s2 H1 H2| | | |]; subst.
      apply (matches_star_cons icase r (c :: s1) s2); [by apply IHr|done].
    + apply star_cons_inv in H as (s1 & s2 & -> & H1 & H2).
      constructor; [by apply IHr|done].
Qed.

Lemma accepts_matches r s : accepts icase r s = true <-> matches icase r s.
Proof.
  revert r. induction s as [|c s IH]; intros r; simpl.
  - apply nullable_matches.
  - rewrite IH. apply deriv_matches.
Qed.
End RegexFacts.

(** ** The Ollama decoder: chunk boundaries *)

Section DecoderFacts.

Import Ollama.
Variable parse_line : bytes -> option OllamaLine.

Lemma drain_none acc :
  take_line acc = None -> drain parse_line acc = ([], Some acc).
Proof.
  intros H. rewrite drain_equation_1.
  destruct (inspect (take_line acc)) as [[[l r]|] Ho]; simpl;
    [congruence | reflexivity].
Qed.

Lemma drain_some acc line rest :
  take_line acc = Some (line, rest) ->
  drain parse_line acc =
    match parse_line line with
    | None => drain parse_line rest
    | Some l =>
      if done l then ([End], None)
      else (Token (response l) :: (drain parse_line rest).1,
            (drain parse_line rest).2)
    end.
Proof.
  intros H. rewrite drain_equation_1.
  destruct (inspect (take_line acc)) as [[[l r]|] Ho]; simpl; [|congruence].
  assert (l = line) by congruence. assert (r = rest) by congruence.
  subst. reflexivity.
Qed.

(** Bytes appended after a complete line do not change that line. *)
Lemma take_line_app acc line rest extra :
  take_line acc = Some (line, rest) ->
  take_line (acc ++ extra) = Some (line, rest ++ extra).
Proof.
  revert line rest.
  induction acc as [|b acc IH]; simpl; intros line rest H; [discriminate|].
  destruct (Byte.eqb b x0a).
  - by injection H as <- <-.
  - destruct (take_line acc) as [[l r]|]; [|discriminate].
    injection H as <- <-. by rewrite (IH l r eq_refl).
Qed.

Lemma take_line_shorter acc line rest :
  take_line acc = Some (line, rest) -> length rest < length acc.
Proof.
  revert line rest.
  induction acc as [|b acc IH]; simpl; intros line rest H; [discriminate|].
  destruct (Byte.eqb b x0a).
  - injection H as <- <-. lia.
  - destruct (take_line acc) as [[l r]|]; [|discriminate].
    injection H as <- <-. specialize (IH l r eq_refl). lia.
Qed.

(** Scanning [acc ++ extra] is scanning [acc], then scanning what that
    left over together with [extra]. *)
Lemma drain_app acc extra :
  drain parse_line (acc ++ extra) =
    match drain parse_line acc with
    | (events, None) => (events, None)
    | (events, Some rest) =>
        (events ++ (drain parse_line (rest ++ extra)).1,
         (drain parse_line (rest ++ extra)).2)
    end.
Proof.
  remember (length acc) as n eqn:Hn. revert acc Hn.
  induction n as [n IH] using lt_wf_ind. intros acc Hn.
  destruct (take_line acc) as [[line rest]|] eqn:Hline.
  - rewrite (drain_some (acc ++ extra) line (rest ++ extra))
      by by apply take_line_app.
    rewrite (drain_some acc line rest) by done.
    pose proof (take_line_shorter _ _ _ Hline) as Hlt.
    specialize (IH (length rest) ltac:(lia) rest eq_refl).
    destruct (parse_line line) as [l|]; [|exact IH].
    destruct (done l); [done|].
    rewrite IH. simpl. by destruct (drain parse_line rest) as [events [rest'|]].
  - rewrite (drain_none acc) by done. simpl.
    by destruct (drain parse_line (acc ++ extra)).
Qed.

(** Delivering [c1 ++ c2] at once is delivering [c1], then [c2]. *)
Lemma feed_app st c1 c2 :
  feed parse_line st (c1 ++ c2) =
    ((feed parse_line st c1).1
       ++ (feed parse_line (feed parse_line st c1).2 c2).1,
     (feed parse_line (feed parse_line st c1).2 c2).2).
Proof.
  destruct st as [acc received|]; [|done]. simpl.
  rewrite (assoc_L (++)), drain_app.
  destruct (drain parse_line (acc ++ c1)) as [events [rest|]]; simpl.
  - destruct (drain parse_line (rest ++ c2)) as [events' [rest'|]]; simpl; [|done].
    do 2 f_equal. destruct received, c1, c2; done.
  - by rewrite (right_id_L [] (++)).
Qed.

Lemma feed_all_concat st chunk chunks :
  feed_all parse_line st (chunk :: chunks) =
  feed_all parse_line st [chunk ++ concat chunks].
Proof.
  revert st chunk. induction chunks as [|c cs IH]; intros st chunk.
  - simpl. by rewrite (right_id_L [] (++)).
  - cbn [feed_all] in *.
    destruct (feed parse_line st chunk) as [e1 st1] eqn:H1.
    specialize (IH st1 c). cbn [feed_all] in IH. rewrite IH.
    change (concat (c :: cs)) with (c ++ concat cs).
    rewrite (feed_app st chunk (c ++ concat cs)), H1. cbn [fst snd].
    destruct (feed parse_line st1 (c ++ concat cs)) as [e2 st2].
    by rewrite !(right_id_L [] (++)).
Qed.

(** What a scan emits: tokens only while it keeps consuming, tokens and one
    final [End] when it stops. *)
Lemma drain_shape acc :
  match drain parse_line acc with
  | (events, Some _) => events = map Token (token_texts events)
  | (events, None) => events = map Token (token_texts events) ++ [End]
  end.
Proof.
  remember (length acc) as n eqn:Hn. revert acc Hn.
  induction n as [n IH] using lt_wf_ind. intros acc Hn.
  destruct (take_line acc) as [[line rest]|] eqn:Hline.
  - rewrite (drain_some acc line rest) by done.
    pose proof (take_line_shorter _ _ _ Hline) as Hlt.
    specialize (IH (length rest) ltac:(lia) rest eq_refl).
    destruct (parse_line line) as [l|]; [|exact IH].
    destruct (done l); [done|].
    destruct (drain parse_line rest) as [events [rest'|]]; simpl in *;
      by rewrite <- IH.
  - by rewrite (drain_none acc).
Qed.

Lemma decode_one_shape body events :
  decode parse_line [body] = Decoded events ->
  events = map Token (token_texts events) ++ [End].
Proof.
  unfold decode. simpl. pose proof (drain_shape body) as Hshape.
  destruct (drain parse_line body) as [evs [rest|]]; simpl.
  - destruct (bool_decide (body ≠ [])); simpl; [|discriminate].
    intros [= <-]. rewrite !(right_id_L [] (++)).
    unfold token_texts in *. rewrite omap_app. simpl.
    rewrite (right_id_L [] (++)). by rewrite <- Hshape.
  - intros [= <-]. by rewrite !(right_id_L [] (++)).
Qed.

End DecoderFacts.

(** C2.  For every response body and every way of cutting its bytes into
    delivery chunks (any number of chunks, cut at any offsets, empty chunks
    included), the Ollama decoder yields the same outcome as for the body
    delivered in one chunk: the same token events in the same order; and
    when the body decodes, that sequence is the token texts followed by one
    terminal [End].  This holds for whatever the line parser accepts, so in
    particular for valid bodies. *)
Theorem ollama_chunk_boundary_invariance
    (parse_line : Ollama.bytes -> option Ollama.OllamaLine)
    (body : Ollama.bytes) (chunks : list Ollama.bytes) :
  concat chunks = body ->
  Ollama.decode parse_line chunks = Ollama.decode parse_line [body]
  /\ (forall events,
        Ollama.decode parse_line [body] = Ollama.Decoded events ->
        events = map Ollama.Token (Ollama.token_texts events) ++ [Ollama.End]).
Proof.
  intros <-. split.
  - unfold Ollama.decode. destruct chunks as [|c cs].
    + simpl. by rewrite drain_none.
    + by rewrite feed_all_concat.
  - apply decode_one_shape.
Qed.

Lemma ollama_chunk_boundary_invariance_witness :
  concat Ollama.example_chunks = Ollama.example_body
  /\ (Ollama.decode Ollama.parse_ollama_line Ollama.example_chunks
      = Ollama.decode Ollama.parse_ollama_line [Ollama.example_body]
      /\ (forall events,
            Ollama.decode Ollama.parse_ollama_line [Ollama.example_body]
            = Ollama.Decoded events ->
            events = map Ollama.Token (Ollama.token_texts events) ++ [Ollama.End])).
Proof.
  split; [reflexivity|].
  apply (ollama_chunk_boundary_invariance Ollama.parse_ollama_line
           Ollama.example_body Ollama.example_chunks).
  reflexivity.
Defined.

(** The example of the specification: tokens ["Hello"], [" world"], then
    [End], whether the body arrives whole or cut inside an object. *)
Example ollama_example_whole :
  Ollama.decode Ollama.parse_ollama_line [Ollama.example_body]
  = Ollama.Decoded [Ollama.Token (list_byte_of_string "Hello");
                    Ollama.Token (list_byte_of_string " world");
                    Ollama.End].
Proof. vm_compute. reflexivity. Qed.

Example ollama_example_cut :
  Ollama.decode Ollama.parse_ollama_line Ollama.example_chunks
  = Ollama.Decoded [Ollama.Token (list_byte_of_string "Hello");
                    Ollama.Token (list_byte_of_string " world");
                    Ollama.End].
Proof. vm_compute. reflexivity. Qed.

(** A line that fails to parse is skipped and decoding goes on; a body that
    ends without a [done] line still ends in [End]; no byte at all is a
    failure. *)
Example ollama_example_bad_line :
  Ollama.decode Ollama.parse_ollama_line
    [Ollama.json_text "not json
{'response':'a','done':false}
{'respon"]
  = Ollama.Decoded [Ollama.Token (list_byte_of_string "a"); Ollama.End].
Proof. vm_compute. reflexivity. Qed.

Example ollama_example_no_bytes :
  Ollama.decode Ollama.parse_ollama_line [[]; []] = Ollama.EmptyBody.
Proof. vm_compute. reflexivity. Qed.

(** ** [filterEmptySections] *)

Lemma section_scan_step lines i acc :
  section_scan lines i acc =
    match lines !! i with
    | Some l =>
      if is_heading l then (i, acc) else section_scan lines (S i) (acc ++ [l])
    | None => (i, acc)
    end.
Proof.
  rewrite section_scan_equation_1.
  destruct (decide (i < length lines)) as [Hlt|Hge]; simpl.
  - destruct (lookup_lt_is_Some_2 lines i Hlt) as [l Hl].
    rewrite Hl, (list_lookup_total_correct _ _ _ Hl).
    by destruct (is_heading l).
  - by rewrite lookup_ge_None_2 by lia.
Qed.

Lemma filter_loop_step lines i result :
  filter_loop lines i result =
    match lines !! i with
    | Some l =>
      if is_heading l then
        let scan := section_scan lines (S i) [] in
        filter_loop lines scan.1
          (if negb (allNA scan.2) then result ++ l :: scan.2 else result)
      else filter_loop lines (S i) (result ++ [l])
    | None => result
    end.
Proof.
  rewrite filter_loop_equation_1.
  destruct (decide (i < length lines)) as [Hlt|Hge]; simpl.
  - destruct (lookup_lt_is_Some_2 lines i Hlt) as [l Hl].
    rewrite Hl, (list_lookup_total_correct _ _ _ Hl).
    by destruct (is_heading l).
  - by rewrite lookup_ge_None_2 by lia.
Qed.

(** The inner loop stops on the first heading at or after [i]: it collects
    the heading-free run that starts the rest of the array. *)
Lemma section_scan_spec lines i acc :
  section_scan lines i acc =
    (i + length (split_sections (drop i lines)).1,
     acc ++ (split_sections (drop i lines)).1).
Proof.
  remember (length lines - i) as n eqn:Hn. revert i acc Hn.
  induction n as [|n IH]; intros i acc Hn; rewrite section_scan_step.
  - rewrite lookup_ge_None_2, drop_ge by lia. simpl.
    by rewrite Nat.add_0_r, (right_id_L [] (++)).
  - destruct (lines !! i) as [l|] eqn:Hl.
    2:{ apply lookup_ge_None_1 in Hl. lia. }
    rewrite (drop_S _ _ _ Hl). simpl.
    destruct (split_sections (drop (S i) lines)) as [body sections] eqn:Hs.
    destruct (is_heading l); simpl.
    + by rewrite Nat.add_0_r, (right_id_L [] (++)).
    + rewrite IH by lia. rewrite Hs. simpl.
      rewrite <- (assoc_L (++)). f_equal. lia.
Qed.

Lemma split_sections_drop_body lines :
  split_sections (drop (length (split_sections lines).1) lines)
  = ([], (split_sections lines).2).
Proof.
  induction lines as [|l rest IH]; [done|]. simpl.
  destruct (split_sections rest) as [body sections] eqn:Hs.
  destruct (is_heading l) eqn:Hh; simpl.
  - by rewrite Hs, Hh.
  - exact IH.
Qed.

(** The test of the source, [allNA], says that no line is substantive. *)
Lemma allNA_substantive body : allNA body = negb (existsb substantive body).
Proof.
  unfold allNA.
  assert (H : forallb (fun l => NA_PATTERNS_test (trim l))
                (filter (fun l => trim l ≠ []) body)
              = negb (existsb substantive body)).
  { induction body as [|l body IH]; [done|].
    rewrite filter_cons. simpl. unfold substantive at 1.
    destruct (decide (trim l ≠ [])) as [Hne|He].
    - rewrite bool_decide_eq_false_2 by done. simpl. rewrite IH.
      by destruct (NA_PATTERNS_test (trim l)).
    - rewrite bool_decide_eq_true_2 by (by destruct (decide (trim l = []))).
      simpl. exact IH. }
  rewrite H. destruct (filter _ body); simpl; [|done].
  simpl in H. by rewrite <- H.
Qed.

(** Invariant of the outer loop: at index [i] with output [result], the
    loop will append the kept lines of the rest of the array. *)
Lemma filter_loop_spec lines i result :
  filter_loop lines i result = result ++ kept_lines (drop i lines).
Proof.
  remember (length lines - i) as n eqn:Hn. revert i result Hn.
  induction n as [n IH] using lt_wf_ind. intros i result Hn.
  rewrite filter_loop_step.
  destruct (lines !! i) as [l|] eqn:Hl.
  2:{ rewrite drop_ge by (by apply lookup_ge_None_1).
      unfold kept_lines. simpl. by rewrite (right_id_L [] (++)). }
  pose proof (lookup_lt_Some _ _ _ Hl) as Hlt.
  rewrite (drop_S _ _ _ Hl). unfold kept_lines at 1. simpl.
  destruct (split_sections (drop (S i) lines)) as [body sections] eqn:Hs.
  destruct (is_heading l) eqn:Hh; simpl.
  - rewrite section_scan_spec, Hs. simpl.
    rewrite (IH (length lines - S (i + length body))) by lia.
    replace (S (i + length body))
      with (S i + length (split_sections (drop (S i) lines)).1)
      by (rewrite Hs; simpl; lia).
    rewrite <- drop_drop. unfold kept_lines.
    rewrite split_sections_drop_body, Hs. simpl.
    rewrite allNA_substantive, negb_involutive.
    destruct (existsb substantive body); simpl; [|done].
    by rewrite <- (assoc_L (++)).
  - rewrite (IH (length lines - S i)) by lia. unfold kept_lines. rewrite Hs.
    by rewrite <- (assoc_L (++)).
Qed.

(** Cutting a text into sections loses no line and keeps the order. *)
Lemma split_sections_lossless lines :
  unsplit_sections (split_sections lines) = lines.
Proof.
  unfold unsplit_sections. induction lines as [|l rest IH]; [done|]. simpl.
  destruct (split_sections rest) as [body sections].
  destruct (is_heading l); simpl in *; by rewrite IH.
Qed.

(** Every section starts with a heading, and no other line is one. *)
Lemma split_sections_shape lines :
  Forall (fun l => is_heading l = false) (split_sections lines).1
  /\ Forall (fun s => is_heading s.1 = true
                      /\ Forall (fun l => is_heading l = false) s.2)
       (split_sections lines).2.
Proof.
  induction lines as [|l rest IH]; [by split|]. simpl.
  destruct (split_sections rest) as [body sections]. destruct IH as [IH1 IH2].
  destruct (is_heading l) eqn:Hh; simpl in *.
  - split; [done|]. by constructor.
  - split; [|done]. by constructor.
Qed.

(** C10, as amended.  Cut the lines of the input at its [##] headings; the
    cut loses nothing.  [filterEmptySections] keeps, in their order, the
    lines before the first heading and every section with at least one
    substantive line (not blank and, trimmed, not matching the
    not-applicable patterns), drops every other section whole, joins the
    kept lines with newlines, and finally trims the joined text. *)
Theorem filterEmptySections_by_sections (markdown : jsstring) :
  let cut := split_sections (split_nl markdown) in
  unsplit_sections cut = split_nl markdown
  /\ Forall (fun l => is_heading l = false) cut.1
  /\ Forall (fun s => is_heading s.1 = true
                      /\ Forall (fun l => is_heading l = false) s.2) cut.2
  /\ filterEmptySections markdown
     = trim (join [0x0A%N]
               (cut.1 ++ concat (map section_lines
                                   (List.filter (fun s => existsb substantive s.2)
                                      cut.2)))).
Proof.
  cbv zeta. split; [apply split_sections_lossless|].
  destruct (split_sections_shape (split_nl markdown)) as [H1 H2].
  do 2 (split; [done|]).
  unfold filterEmptySections. rewrite filter_loop_spec, drop_0.
  unfold kept_lines. destruct (split_sections (split_nl markdown)). reflexivity.
Qed.

(** C10 as stated fails.  In [markdown_with_blank_line] the blank line
    after [intro] stands before the first heading, so it is a line to
    preserve; the loops keep it, and the final [trim] removes it from the
    output. *)
Lemma filterEmptySections_drops_a_kept_line :
  kept_lines (split_nl markdown_with_blank_line) = [js "intro"; []]
  /\ split_nl (filterEmptySections markdown_with_blank_line) = [js "intro"]
  /\ split_nl (filterEmptySections markdown_with_blank_line)
     <> kept_lines (split_nl markdown_with_blank_line).
Proof. vm_compute. repeat split; discriminate. Qed.

(** ** The component: renders and effects *)

(** Membership of a command in the short command lists handlers return. *)
Ltac invert_elem :=
  simpl in *;
  repeat match goal with
         | H : _ ∈ [] |- _ => by apply elem_of_nil in H
         | H : _ ∈ _ :: _ |- _ =>
             apply elem_of_cons in H as [H|H]; [try discriminate H|]
         end.

Lemma auto_translate_idle prev next :
  sourceText next = sourceText prev ->
  settingsId next = settingsId prev ->
  auto_translate_effect prev next = (next, []).
Proof.
  intros Hs Hi. unfold auto_translate_effect, auto_translate_deps_changed.
  unfold jsstring_eqb. rewrite Hs, Hi, Nat.eqb_refl.
  by rewrite bool_decide_eq_true_2.
Qed.

(** A turn whose handler leaves [sourceText] and [settings] alone ends with
    the handler: the auto-translate effect does not run. *)
Lemma step_without_effect `{engine : Engine} st ev :
  sourceText (handle ev st).1 = sourceText st ->
  settingsId (handle ev st).1 = settingsId st ->
  step st ev = handle ev st.
Proof.
  intros Hs Hi. unfold step. destruct (handle ev st) as [st1 cmds1].
  rewrite auto_translate_idle by done. by rewrite (right_id_L [] (++)).
Qed.

(** [handleTranslate] either returns at its guard, or resets the output
    fields and issues exactly one request built from the text and the
    current settings. *)
Lemma handleTranslate_cases arg st :
  let text := match arg with
              | Some t => if truthy t then t else sourceText st
              | None => sourceText st
              end in
  (truthy (trim text) = false /\ handleTranslate arg st = (st, []))
  \/ (truthy (trim text) = true
      /\ (handleTranslate arg st).2 =
           [translate
              {| TranslateRequest.text := text;
                 TranslateRequest.source_lang := js "auto";
                 TranslateRequest.target_lang := targetLang (settings st);
                 TranslateRequest.provider := provider (settings st);
                 TranslateRequest.endpoint := endpoint (settings st);
                 TranslateRequest.model := model (settings st) |}]
      /\ sourceText (handleTranslate arg st).1 = sourceText st
      /\ settings (handleTranslate arg st).1 = settings st
      /\ settingsId (handleTranslate arg st).1 = settingsId st
      /\ translatedText (handleTranslate arg st).1 = []
      /\ history (handleTranslate arg st).1 = history st).
Proof.
  cbv zeta. unfold handleTranslate.
  destruct (truthy (trim _)); simpl; [right|left; done].
  by destruct st.
Qed.

Lemma handleExplain_commands st c :
  c ∈ (handleExplain st).2 -> exists r, c = explain r.
Proof.
  unfold handleExplain.
  destruct (explanationCacheRef st) as [cache|];
    [destruct (jsstring_eqb _ _)|]; simpl; intros H; invert_elem; eauto.
Qed.

Lemma shortcut_capture_commands `{engine : Engine} e st c :
  c ∈ (shortcut_capture_handler e st).2 -> exists s, c = update_shortcut s.
Proof.
  unfold shortcut_capture_handler.
  destruct (bool_decide _); [intros H; invert_elem|].
  destruct (mapKeyToShortcutString _) as [k|]; [|intros H; invert_elem].
  destruct (truthy_value k); simpl; intros H; invert_elem; eauto.
Qed.

Lemma shortcut_capture_settings `{engine : Engine} e st :
  settings (shortcut_capture_handler e st).1 = settings st
  /\ settingsId (shortcut_capture_handler e st).1 = settingsId st
  /\ sourceText (shortcut_capture_handler e st).1 = sourceText st
  /\ error (shortcut_capture_handler e st).1 = error st.
Proof.
  unfold shortcut_capture_handler.
  destruct (bool_decide _); [done|].
  destruct (mapKeyToShortcutString _) as [k|]; [|done].
  destruct (truthy_value k); simpl; [|done]. by destruct st.
Qed.

(** The only handlers that issue [translate] are the two that call
    [handleTranslate()]. *)
Lemma handle_translate_origin `{engine : Engine} ev st r :
  translate r ∈ (handle ev st).2 ->
  handle ev st = handleTranslate None st.
Proof.
  destruct ev; simpl; intros H; try (by invert_elem); try done.
  - destruct (isCapturingShortcut st); [|by invert_elem].
    apply shortcut_capture_commands in H as [s Hs]. discriminate.
  - unfold handleKeyDown in *. destruct (_ && _); [done|by invert_elem].
  - unfold toggleExplanation in H. destruct (_ && _); [|by invert_elem].
    apply handleExplain_commands in H as [r' Hr]. discriminate.
Qed.

(** ** Cancellation and failure notifications *)

(** C1.  What the code does on a [translation-cancelled] event, next to
    what it does when [translate] fails: both store their message in the
    [error] state, and both messages are shown by the one error banner of
    the main page.  The component has no other place for a notification. *)
Theorem cancellation_shares_error_channel `{engine : Engine} (st : AppState) (e : jsstring) :
  let cancelled := (step st TranslationCancelled).1 in
  let failed := (step st (TranslateRejected e)).1 in
  error cancelled = Some msg_translation_cancelled
  /\ error_banner cancelled
     = (if showSettings st then None else Some msg_translation_cancelled)
  /\ error failed = Some e
  /\ error_banner failed
     = (if showSettings st then None else if truthy e then Some e else None).
Proof.
  cbv zeta. rewrite !step_without_effect by (by destruct st).
  unfold error_banner. destruct st as [? ? ? ? [] ? ? ? ? ? ? ? ? ? ? ? ? ? ? ?]; done.
Qed.

(** ** Captured selections *)

Lemma translate_selection_blank_is_noop `{engine : Engine} st payload :
  truthy (trim payload) = false ->
  step st (TranslateSelection payload) = (st, []).
Proof.
  intros H. rewrite step_without_effect; simpl; unfold on_translate_selection;
    rewrite H, andb_false_r; done.
Qed.

Lemma translate_selection_new_text_translates `{engine : Engine} st payload :
  truthy (trim payload) = true ->
  payload <> sourceText st ->
  (step st (TranslateSelection payload)).2 =
    [translate
       {| TranslateRequest.text := payload;
          TranslateRequest.source_lang := js "auto";
          TranslateRequest.target_lang := targetLang (settings st);
          TranslateRequest.provider := provider (settings st);
          TranslateRequest.endpoint := endpoint (settings st);
          TranslateRequest.model := model (settings st) |}].
Proof.
  intros Ht Hne. unfold step. simpl. unfold on_translate_selection.
  assert (Hp : truthy payload = true).
  { destruct payload; [by vm_compute in Ht|done]. }
  rewrite Ht, Hp. simpl.
  unfold auto_translate_effect, auto_translate_deps_changed, jsstring_eqb.
  destruct st; simpl in *.
  rewrite bool_decide_eq_false_2 by done. simpl. rewrite Ht. simpl.
  unfold handleTranslate. simpl. rewrite Hp, Ht. reflexivity.
Qed.

Lemma translate_selection_same_text_is_deferred `{engine : Engine} st payload :
  truthy (trim payload) = true ->
  payload = sourceText st ->
  (step st (TranslateSelection payload)).2 = []
  /\ pendingTranslateRef (step st (TranslateSelection payload)).1 = true.
Proof.
  intros Ht ->. 
  assert (Hp : truthy (sourceText st) = true).
  { destruct (sourceText st); [by vm_compute in Ht|done]. }
  rewrite step_without_effect; simpl; unfold on_translate_selection;
    rewrite Ht, Hp; simpl; by destruct st.
Qed.

(** C3.  The hot key pressed twice on the same selection.  The first
    [translate-selection] event starts a translation of ["hello"].  The
    second one, carrying the same non-blank text, starts none: the source
    text does not change, so the auto-translate effect is not run, and the
    pending flag stays set; the translation is then started by the next
    edit of the source text instead. *)
Theorem translate_selection_twice_same_text `{engine : Engine} :
  let hello := js "hello" in
  let request text :=
    translate
      {| TranslateRequest.text := text;
         TranslateRequest.source_lang := js "auto";
         TranslateRequest.target_lang := js "Japanese";
         TranslateRequest.provider := ollama;
         TranslateRequest.endpoint := js "http://localhost:11434";
         TranslateRequest.model := js "llama3" |} in
  let first := step fresh_state (TranslateSelection hello) in
  let second := step first.1 (TranslateSelection hello) in
  let edit := step second.1 (ChangeSourceText (js "hello!")) in
  truthy (trim hello) = true
  /\ first.2 = [request hello]
  /\ second.2 = []
  /\ pendingTranslateRef second.1 = true
  /\ edit.2 = [request (js "hello!")].
Proof. vm_compute. repeat split. Qed.

(** ** Rebinding the shortcut *)

(** No handler but the success continuation of [update_shortcut] writes the
    [shortcut] setting. *)
Lemma shortcut_written_only_on_success `{engine : Engine} st ev :
  shortcut (settings (step st ev).1) <> shortcut (settings st) ->
  exists shortcutStr, ev = UpdateShortcutResolved shortcutStr.
Proof.
  intros Hne.
  assert (Hev : (exists s, ev = UpdateShortcutResolved s)
                \/ ~ (exists s, ev = UpdateShortcutResolved s)).
  { destruct ev; try (right; by intros [s Hs]). left. eauto. }
  destruct Hev as [|Hev]; [done|]. exfalso. apply Hne. clear Hne.
  unfold step. destruct (handle ev st) as [st1 cmds1] eqn:Hh.
  assert (H1 : shortcut (settings st1) = shortcut (settings st)).
  { destruct ev; simpl in Hh;
      unfold toggleAutostart, handleCancelTranslation, handleCancelExplanation,
        handlePaste, handleCopy in Hh;
      try (injection Hh as <- <-; by destruct st).
    - destruct (isCapturingShortcut st); [|by injection Hh as <- <-].
      destruct (shortcut_capture_settings e st) as [Hs _].
      rewrite Hh in Hs. simpl in Hs. by rewrite Hs.
    - exfalso. apply Hev. eauto.
    - unfold handleKeyDown in Hh. destruct (_ && _); [|by injection Hh as <- <-].
      destruct (handleTranslate_cases None st) as [[_ H]|(_ & _ & _ & H & _)];
        rewrite Hh in H; [by injection H as -> ->|]. simpl in H. by rewrite H.
    - destruct (handleTranslate_cases None st) as [[_ H]|(_ & _ & _ & H & _)];
        rewrite Hh in H; [by injection H as -> ->|]. simpl in H. by rewrite H.
    - injection Hh as <- <-. unfold handleTranslate_resolved, addToHistory.
      destruct (truthy _); by destruct st.
    - unfold toggleExplanation, handleExplain in Hh.
      destruct (_ && _); [|injection Hh as <- <-; by destruct st].
      destruct st; simpl in Hh.
      destruct explanationCacheRef0 as [cache|];
        [destruct (jsstring_eqb _ _)|]; by injection Hh as <- <-.
    - injection Hh as <- <-.
      unfold on_translate_selection. destruct (_ && _); by destruct st. }
  unfold auto_translate_effect.
  destruct (auto_translate_deps_changed st st1); [|done].
  destruct (_ && _); [|done].
  destruct (handleTranslate_cases (Some (sourceText st1))
              (setPendingTranslateRef false st1)) as [[_ H]|(_ & _ & _ & H & _)].
  - rewrite H. simpl. by destruct st1.
  - destruct (handleTranslate _ _) as [st2 cmds2]. simpl in *. rewrite H.
    by destruct st1.
Qed.

(** C4.  A rebinding attempt is a key press in capture mode ([WindowKeydown]),
    followed, when [update_shortcut] fails, by [UpdateShortcutRejected].
    Neither turn changes the stored settings, so the stored shortcut is
    the previous one, and the failure puts the message with the error text
    into [error]; the banner of the main page shows it (the capture runs
    on the settings page, which has no banner, so it is seen once the
    settings are closed).  Moreover any turn that changes the stored
    shortcut is the success continuation of [update_shortcut]. *)
Theorem shortcut_rebind_failure_keeps_setting `{engine : Engine}
    (st : AppState) (e : KeyboardEvent) (err : jsstring) :
  let attempt := (step st (WindowKeydown e)).1 in
  let failed := (step attempt (UpdateShortcutRejected err)).1 in
  settings attempt = settings st
  /\ settings failed = settings st
  /\ error failed = Some (msg_shortcut_failed ++ err)
  /\ error_banner (step failed ClickCloseSettings).1
     = Some (msg_shortcut_failed ++ err)
  /\ (forall st0 ev,
        shortcut (settings (step st0 ev).1) <> shortcut (settings st0) ->
        exists shortcutStr, ev = UpdateShortcutResolved shortcutStr).
Proof.
  cbv zeta.
  assert (Ha : step st (WindowKeydown e) = handle (WindowKeydown e) st).
  { apply step_without_effect; simpl; destruct (isCapturingShortcut st); try done;
      by destruct (shortcut_capture_settings e st) as (? & ? & ? & ?). }
  assert (Hs : settings (handle (WindowKeydown e) st).1 = settings st).
  { simpl. destruct (isCapturingShortcut st); [|done].
    by destruct (shortcut_capture_settings e st) as (? & ? & ? & ?). }
  rewrite Ha. set (attempt := (handle (WindowKeydown e) st).1) in *.
  rewrite step_without_effect by (by destruct attempt). simpl.
  split; [done|]. split; [by destruct attempt|].
  split; [by destruct attempt|]. split.
  - rewrite step_without_effect by (by destruct attempt).
    unfold error_banner. by destruct attempt.
  - apply shortcut_written_only_on_success.
Qed.

Lemma shortcut_rebind_failure_keeps_setting_witness :
  let capturing :=
    (step (step fresh_state ClickOpenSettings).1 ClickShortcutDisplay).1 in
  let e := {| key := js "k"; code := js "KeyK"; ctrlKey := true;
              shiftKey := false; altKey := true; metaKey := false |} in
  let attempt := step capturing (WindowKeydown e) in
  let failed := (step attempt.1 (UpdateShortcutRejected (js "busy"))).1 in
  let retried := (step failed (UpdateShortcutResolved (js "Ctrl+Alt+K"))).1 in
  attempt.2 = [update_shortcut (js "Ctrl+Alt+K")]
  /\ shortcut (settings failed) = js "Ctrl+Alt+L"
  /\ shortcut (settings retried) <> shortcut (settings failed)
  /\ (settings attempt.1 = settings capturing
      /\ settings failed = settings capturing
      /\ error failed = Some (msg_shortcut_failed ++ js "busy")
      /\ error_banner (step failed ClickCloseSettings).1
         = Some (msg_shortcut_failed ++ js "busy")
      /\ (forall st0 ev,
            shortcut (settings (step st0 ev).1) <> shortcut (settings st0) ->
            exists shortcutStr, ev = UpdateShortcutResolved shortcutStr)).
Proof.
  cbv zeta. split; [reflexivity|]. split; [reflexivity|].
  split; [vm_compute; discriminate|].
  apply (shortcut_rebind_failure_keeps_setting
           (step (step fresh_state ClickOpenSettings).1 ClickShortcutDisplay).1
           {| key := js "k"; code := js "KeyK"; ctrlKey := true;
              shiftKey := false; altKey := true; metaKey := false |}
           (js "busy")).
Defined.

(** ** Streaming chunks *)

Lemma step_translation_chunk `{engine : Engine} st payload :
  step st (TranslationChunk payload) = (on_translation_chunk payload st, []).
Proof. rewrite step_without_effect; by destruct st. Qed.

Lemma run_translation_chunks `{engine : Engine} st payloads :
  run st (map TranslationChunk payloads)
  = setTranslatedText (translatedText st ++ concat payloads) st.
Proof.
  revert st. induction payloads as [|p ps IH]; intros st.
  - simpl. rewrite (right_id_L [] (++)). by destruct st.
  - unfold run in *. simpl. rewrite step_translation_chunk. simpl. rewrite IH.
    unfold on_translation_chunk. destruct st; simpl.
    by rewrite (assoc_L (++)).
Qed.

(** C5.  Starting from an empty displayed translation, after any finite
    sequence of [translation-chunk] events the displayed text is the
    concatenation of their payloads in order; it still is after the
    [translate] promise then resolves (normal completion).  The text is
    reset to empty by [handleTranslate] whenever it issues a request
    ([handleTranslate_cases]). *)
Theorem translation_chunks_concatenate `{engine : Engine} (st : AppState) (payloads : list jsstring) :
  translatedText st = [] ->
  translatedText (run st (map TranslationChunk payloads)) = concat payloads
  /\ (forall text lang response now_id now_ts,
        translatedText
          (run st (map TranslationChunk payloads
                   ++ [TranslateResolved text lang response now_id now_ts]))
        = concat payloads).
Proof.
  intros Hempty. split.
  - rewrite run_translation_chunks, Hempty. by destruct st.
  - intros text lang response now_id now_ts.
    unfold run. rewrite fold_left_app. fold (run st (map TranslationChunk payloads)).
    rewrite run_translation_chunks, Hempty. simpl.
    rewrite step_without_effect;
      simpl; unfold handleTranslate_resolved, addToHistory;
      destruct (truthy _); by destruct st.
Qed.

Lemma translation_chunks_concatenate_witness :
  translatedText (step fresh_state (TranslateSelection (js "hello"))).1 = []
  /\ translatedText
       (run (step fresh_state (TranslateSelection (js "hello"))).1
          (map TranslationChunk [js "こんにちは"; js "、世界"]))
     = js "こんにちは、世界".
Proof.
  split; [reflexivity|].
  exact (proj1 (translation_chunks_concatenate
                  (step fresh_state (TranslateSelection (js "hello"))).1
                  [js "こんにちは"; js "、世界"] eq_refl)).
Defined.

(** ** The two cancellation domains *)

(** The only handler that issues [cancel_translation], and the only one
    that issues [cancel_explanation]. *)
Lemma cancel_commands_origin `{engine : Engine} st ev :
  (cancel_translation ∈ (step st ev).2 -> ev = ClickCancelTranslation)
  /\ (cancel_explanation ∈ (step st ev).2 -> ev = ClickCancelExplanation).
Proof.
  assert (Heff : forall c, c ∈ (auto_translate_effect st (handle ev st).1).2 ->
                           exists r, c = translate r).
  { intros c. unfold auto_translate_effect.
    destruct (auto_translate_deps_changed _ _); [|intros H; invert_elem].
    destruct (_ && _); [|intros H; invert_elem].
    destruct (handleTranslate_cases (Some (sourceText (handle ev st).1))
                (setPendingTranslateRef false (handle ev st).1))
      as [[_ H]|(_ & H & _)]; rewrite H; intros Hc; invert_elem; eauto. }
  assert (Hh : forall c, c ∈ (handle ev st).2 ->
                 (c = cancel_translation -> ev = ClickCancelTranslation)
                 /\ (c = cancel_explanation -> ev = ClickCancelExplanation)).
  { intros c Hc. destruct ev; simpl in Hc;
      unfold toggleAutostart, handleCancelTranslation, handleCancelExplanation,
        handlePaste, handleCopy in Hc;
      try (by invert_elem); try (invert_elem; subst; by split).
    - destruct (isCapturingShortcut st); [|by invert_elem].
      apply shortcut_capture_commands in Hc as [s ->]. by split.
    - unfold handleKeyDown in Hc. destruct (_ && _); [|by invert_elem].
      destruct (handleTranslate_cases None st) as [[_ H]|(_ & H & _)];
        rewrite H in Hc; invert_elem; subst; by split.
    - destruct (handleTranslate_cases None st) as [[_ H]|(_ & H & _)];
        rewrite H in Hc; invert_elem; subst; by split.
    - unfold toggleExplanation in Hc. destruct (_ && _); [|by invert_elem].
      apply handleExplain_commands in Hc as [r ->]. by split. }
  unfold step. destruct (handle ev st) as [st1 cmds1]. simpl in *.
  destruct (auto_translate_effect st st1) as [st2 cmds2]. simpl in *.
  split; intros [Hc|Hc]%elem_of_app.
  - by apply (Hh _ Hc).
  - by destruct (Heff _ Hc).
  - by apply (Hh _ Hc).
  - by destruct (Heff _ Hc).
Qed.

(** C6.  A [translation-cancelled] event issues no command and changes at
    most [isLoading], [isCancelling] and [error]; in particular every
    explanation hook keeps its value.  An [explanation-cancelled] event
    issues no command and changes at most [isExplanationLoading],
    [isExplanationCancelling] and [explanationError]; in particular every
    translation hook keeps its value.  Each cancel button touches only the
    cancelling flag of its own domain and issues only its own command, and
    no other turn of the component issues [cancel_translation] or
    [cancel_explanation]. *)
Theorem cancellation_is_domain_independent `{engine : Engine} (st : AppState) :
  let t := step st TranslationCancelled in
  let x := step st ExplanationCancelled in
  (t = (setError (Some msg_translation_cancelled)
          (setIsCancelling false (setIsLoading false st)), [])
   /\ explanationText t.1 = explanationText st
   /\ isExplanationOpen t.1 = isExplanationOpen st
   /\ isExplanationLoading t.1 = isExplanationLoading st
   /\ explanationError t.1 = explanationError st
   /\ isExplanationCancelling t.1 = isExplanationCancelling st
   /\ explanationCacheRef t.1 = explanationCacheRef st)
  /\ (x = (setExplanationError (Some msg_explanation_cancelled)
             (setIsExplanationCancelling false
                (setIsExplanationLoading false st)), [])
      /\ sourceText x.1 = sourceText st
      /\ translatedText x.1 = translatedText st
      /\ isLoading x.1 = isLoading st
      /\ error x.1 = error st
      /\ isCancelling x.1 = isCancelling st
      /\ pendingTranslateRef x.1 = pendingTranslateRef st
      /\ history x.1 = history st)
  /\ step st ClickCancelTranslation = (setIsCancelling true st, [cancel_translation])
  /\ step st ClickCancelExplanation
     = (setIsExplanationCancelling true st, [cancel_explanation])
  /\ (forall st0 ev,
        (cancel_translation ∈ (step st0 ev).2 -> ev = ClickCancelTranslation)
        /\ (cancel_explanation ∈ (step st0 ev).2 -> ev = ClickCancelExplanation)).
Proof.
  cbv zeta. rewrite !step_without_effect by (by destruct st). simpl.
  unfold on_translation_cancelled, on_explanation_cancelled,
    handleCancelTranslation, handleCancelExplanation.
  split; [by destruct st|]. split; [by destruct st|].
  do 2 (split; [done|]). apply cancel_commands_origin.
Qed.

(** ** The [translate] request *)

(** C7.  Whatever turn of the component issues a [translate] request, the
    request carries the source text of the state the turn leaves, the
    source language hint ["auto"], and the target language, provider,
    endpoint and model of the settings of that state; no other field
    exists.  The answer is consumed as a [TranslateResponse], a translated
    text with a detected-language hint that may be [null].  The completion
    reads the translated text: when it is not blank it becomes the
    [translatedText] of a new first history entry, beside the text and the
    target language of the request, and when it is blank the history
    stays; either way the loading flag goes down, no command is issued,
    and the displayed translation and the error stay as they are.  The
    completion never reads the hint: it does the same whatever the hint
    is. *)
Theorem translate_request_shape `{engine : Engine}
    (st : AppState) (ev : Event) (r : TranslateRequest.t) :
  translate r ∈ (step st ev).2 ->
  let st' := (step st ev).1 in
  r = {| TranslateRequest.text := sourceText st';
         TranslateRequest.source_lang := js "auto";
         TranslateRequest.target_lang := targetLang (settings st');
         TranslateRequest.provider := provider (settings st');
         TranslateRequest.endpoint := endpoint (settings st');
         TranslateRequest.model := model (settings st') |}
  /\ truthy (trim (TranslateRequest.text r)) = true
  /\ (forall text lang response hint now_id now_ts st0,
        step st0 (TranslateResolved text lang response now_id now_ts)
        = step st0 (TranslateResolved text lang
                      {| translated_text := translated_text response;
                         detected_lang := hint |} now_id now_ts))
  /\ (forall text lang response now_id now_ts st0,
        let completed :=
          step st0 (TranslateResolved text lang response now_id now_ts) in
        completed.2 = []
        /\ isLoading completed.1 = false
        /\ history completed.1
           = (if truthy (trim (translated_text response))
              then take 50
                     ({| HistoryItem.id := number_toString now_id;
                         HistoryItem.sourceText := text;
                         HistoryItem.translatedText := translated_text response;
                         HistoryItem.targetLang := lang;
                         HistoryItem.timestamp := now_ts |} :: history st0)
              else history st0)
        /\ translatedText completed.1 = translatedText st0
        /\ error completed.1 = error st0).
Proof.
  cbv zeta. intros Hin.
  assert (Hreq : r = {| TranslateRequest.text := sourceText (step st ev).1;
         TranslateRequest.source_lang := js "auto";
         TranslateRequest.target_lang := targetLang (settings (step st ev).1);
         TranslateRequest.provider := provider (settings (step st ev).1);
         TranslateRequest.endpoint := endpoint (settings (step st ev).1);
         TranslateRequest.model := model (settings (step st ev).1) |}
      /\ truthy (trim (TranslateRequest.text r)) = true).
  { unfold step in *. destruct (handle ev st) as [st1 cmds1] eqn:Hh.
    destruct (auto_translate_effect st st1) as [st2 cmds2] eqn:He.
    simpl in *. apply elem_of_app in Hin as [Hin|Hin].
    - pose proof (handle_translate_origin ev st r) as Ho.
      rewrite Hh in Ho. specialize (Ho Hin).
      destruct (handleTranslate_cases None st)
        as [[_ H]|(Ht & Hc & Hs & Hset & Hid & _)]; rewrite <- Ho in *.
      + injection H as -> ->. invert_elem.
      + simpl in *. rewrite auto_translate_idle in He by done.
        injection He as <- <-. rewrite Hc in Hin. invert_elem.
        injection Hin as ->. simpl. by rewrite Hs, Hset.
    - unfold auto_translate_effect in He.
      destruct (auto_translate_deps_changed st st1);
        [|injection He as <- <-; invert_elem].
      destruct (pendingTranslateRef st1 && truthy (trim (sourceText st1))) eqn:Hp;
        [|injection He as <- <-; invert_elem].
      apply andb_true_iff in Hp as [_ Hp].
      assert (Htr : truthy (sourceText st1) = true).
      { destruct (sourceText st1); [by vm_compute in Hp|done]. }
      destruct (handleTranslate_cases (Some (sourceText st1))
                  (setPendingTranslateRef false st1))
        as [[_ H]|(Ht & Hc & Hs & Hset & Hid & _)]; rewrite He in *.
      + injection H as -> ->. invert_elem.
      + simpl in *. rewrite Hc in Hin. invert_elem. injection Hin as ->.
        simpl. rewrite Hs, Hset.
        assert (Hsrc : sourceText (setPendingTranslateRef false st1) = sourceText st1)
          by by destruct st1.
        assert (Hst : settings (setPendingTranslateRef false st1) = settings st1)
          by by destruct st1.
        rewrite Hsrc, Hst in *. by rewrite Htr in *. }
  destruct Hreq as [Hreq Htrim]. do 2 (split; [done|]). split.
  - intros. unfold step. simpl. reflexivity.
  - intros text lang response now_id now_ts st0.
    rewrite step_without_effect;
      simpl; unfold handleTranslate_resolved, addToHistory;
      destruct (truthy (trim (translated_text response)));
      destruct st0; simpl; repeat split; reflexivity.
Qed.

Lemma translate_request_shape_witness :
  let st := (step fresh_state (ChangeSourceText (js "good morning"))).1 in
  let r := {| TranslateRequest.text := js "good morning";
              TranslateRequest.source_lang := js "auto";
              TranslateRequest.target_lang := js "Japanese";
              TranslateRequest.provider := ollama;
              TranslateRequest.endpoint := js "http://localhost:11434";
              TranslateRequest.model := js "llama3" |} in
  let completed :=
    step (step st ClickTranslate).1
      (TranslateResolved (js "good morning") (js "Japanese")
         {| translated_text := js "おはよう"; detected_lang := None |}
         1730000000000 1730000000001) in
  translate r ∈ (step st ClickTranslate).2
  /\ r = {| TranslateRequest.text := sourceText (step st ClickTranslate).1;
            TranslateRequest.source_lang := js "auto";
            TranslateRequest.target_lang := targetLang (settings (step st ClickTranslate).1);
            TranslateRequest.provider := provider (settings (step st ClickTranslate).1);
            TranslateRequest.endpoint := endpoint (settings (step st ClickTranslate).1);
            TranslateRequest.model := model (settings (step st ClickTranslate).1) |}
  /\ isLoading completed.1 = false
  /\ history completed.1
     = [{| HistoryItem.id := js "1730000000000";
           HistoryItem.sourceText := js "good morning";
           HistoryItem.translatedText := js "おはよう";
           HistoryItem.targetLang := js "Japanese";
           HistoryItem.timestamp := 1730000000001 |}].
Proof.
  cbv zeta.
  assert (Hin : translate
                  {| TranslateRequest.text := js "good morning";
                     TranslateRequest.source_lang := js "auto";
                     TranslateRequest.target_lang := js "Japanese";
                     TranslateRequest.provider := ollama;
                     TranslateRequest.endpoint := js "http://localhost:11434";
                     TranslateRequest.model := js "llama3" |}
                ∈ (step (step fresh_state (ChangeSourceText (js "good morning"))).1
                     ClickTranslate).2)
    by (vm_compute; apply list_elem_of_here).
  destruct (translate_request_shape _ _ _ Hin) as (Hr & _ & _ & Hdone).
  split; [exact Hin|]. split; [exact Hr|].
  destruct (Hdone (js "good morning") (js "Japanese")
              {| translated_text := js "おはよう"; detected_lang := None |}
              1730000000000%N 1730000000001%N
              (step (step fresh_state (ChangeSourceText (js "good morning"))).1
                 ClickTranslate).1)
    as (_ & Hl & Hh & _).
  split; [exact Hl|]. rewrite Hh. vm_compute. reflexivity.
Defined.

(** ** The history *)

(** C8.  [addToHistory] puts the new entry first, keeps the previous
    entries after it in their order, and cuts the list to 50 entries.  When
    a translation completes, the entry is added exactly when the translated
    text is not blank; otherwise the history is left as it was. *)
Theorem history_newest_first_at_most_50 `{engine : Engine}
    (st : AppState) (text lang : jsstring) (response : TranslateResponse)
    (now_id now_ts : N) :
  let newItem :=
    {| HistoryItem.id := number_toString now_id;
       HistoryItem.sourceText := text;
       HistoryItem.translatedText := translated_text response;
       HistoryItem.targetLang := lang;
       HistoryItem.timestamp := now_ts |} in
  let added :=
    history (addToHistory text (translated_text response) lang now_id now_ts st) in
  let completed :=
    history (step st (TranslateResolved text lang response now_id now_ts)).1 in
  added = newItem :: take 49 (history st)
  /\ length added <= 50
  /\ added !! 0 = Some newItem
  /\ completed = (if truthy (trim (translated_text response))
                  then added else history st)
  /\ length completed <= Nat.max 50 (length (history st)).
Proof.
  cbv zeta.
  assert (Hadd : history (addToHistory text (translated_text response) lang
                            now_id now_ts st)
                 = {| HistoryItem.id := number_toString now_id;
                      HistoryItem.sourceText := text;
                      HistoryItem.translatedText := translated_text response;
                      HistoryItem.targetLang := lang;
                      HistoryItem.timestamp := now_ts |} :: take 49 (history st))
    by by destruct st.
  assert (Hlen : length (history (addToHistory text (translated_text response)
                                    lang now_id now_ts st)) <= 50).
  { rewrite Hadd. simpl. rewrite length_take. lia. }
  assert (Hdone : history (step st (TranslateResolved text lang response
                                      now_id now_ts)).1
                  = if truthy (trim (translated_text response))
                    then history (addToHistory text (translated_text response)
                                    lang now_id now_ts st)
                    else history st).
  { rewrite step_without_effect;
      simpl; unfold handleTranslate_resolved, addToHistory;
      destruct (truthy _); by destruct st. }
  split; [done|]. split; [done|]. split; [by rewrite Hadd|]. split; [done|].
  rewrite Hdone. destruct (truthy _); lia.
Qed.

(** Once within the bound, the history stays within it, whatever happens. *)
Lemma history_bound_invariant `{engine : Engine} st ev :
  length (history st) <= 50 -> length (history (step st ev).1) <= 50.
Proof.
  intros Hb.
  assert (Hh : length (history (handle ev st).1) <= 50).
  { destruct ev; simpl;
      unfold toggleAutostart, handleCancelTranslation, handleCancelExplanation,
        handlePaste, handleCopy;
      try (by destruct st).
    - destruct (isCapturingShortcut st); [|done].
      unfold shortcut_capture_handler. destruct (bool_decide _); [done|].
      destruct (mapKeyToShortcutString _) as [k|]; [|done].
      destruct (truthy_value k); [|done]. by destruct st.
    - unfold handleKeyDown. destruct (_ && _); [|done].
      destruct (handleTranslate_cases None st)
        as [[_ H]|(_ & _ & _ & _ & _ & _ & H)]; rewrite H; done.
    - destruct (handleTranslate_cases None st)
        as [[_ H]|(_ & _ & _ & _ & _ & _ & H)]; rewrite H; done.
    - unfold handleTranslate_resolved, addToHistory.
      destruct (truthy _); [|by destruct st].
      destruct st; simpl. rewrite length_take. lia.
    - unfold toggleExplanation, handleExplain. destruct (_ && _); [|by destruct st].
      destruct st; simpl.
      destruct explanationCacheRef0 as [cache|]; [destruct (jsstring_eqb _ _)|]; done.
    - unfold handleDeleteHistory. destruct st; simpl in *.
      etrans; [apply length_filter|done].
    - unfold handleClearHistory. destruct st; simpl. lia.
    - unfold on_translate_selection. destruct (_ && _); by destruct st. }
  unfold step. destruct (handle ev st) as [st1 cmds1]. simpl in Hh.
  unfold auto_translate_effect.
  destruct (auto_translate_deps_changed st st1); [|done].
  destruct (_ && _); [|done].
  destruct (handleTranslate_cases (Some (sourceText st1))
              (setPendingTranslateRef false st1))
    as [[_ H]|(_ & _ & _ & _ & _ & _ & H)].
  - rewrite H. simpl. by destruct st1.
  - destruct (handleTranslate _ _) as [st2 cmds2]. simpl in *. rewrite H.
    by destruct st1.
Qed.

(** ** The explanation cache *)

Lemma toggleExplanation_frame st :
  sourceText (toggleExplanation st).1 = sourceText st
  /\ settingsId (toggleExplanation st).1 = settingsId st.
Proof.
  unfold toggleExplanation, handleExplain. destruct (_ && _); [|by destruct st].
  destruct st; simpl.
  destruct explanationCacheRef0 as [cache|]; [destruct (jsstring_eqb _ _)|]; done.
Qed.

(** C9.  While the cache holds an explanation whose source is the current
    source text, [handleExplain] issues no request and only displays the
    cached explanation; calling it again changes nothing more, and the
    button that calls it issues no [explain] either.  That is the state a
    resolved [explain] leaves as long as the source text stays the one it
    was asked for. *)
Theorem explain_is_cached_per_source `{engine : Engine} (st : AppState) (cache : ExplanationCache) :
  explanationCacheRef st = Some cache ->
  source cache = sourceText st ->
  handleExplain st = (setExplanationText (explanation cache) st, [])
  /\ handleExplain (handleExplain st).1 = handleExplain st
  /\ (forall r, explain r ∉ (handleExplain st).2)
  /\ (forall r, explain r ∉ (step st ClickToggleExplanation).2)
  /\ (forall st0 response_explanation,
        handleExplain
          (handleExplain_resolved (sourceText st0) response_explanation st0)
        = (setExplanationText response_explanation
             (handleExplain_resolved (sourceText st0) response_explanation st0),
           [])).
Proof.
  intros Hc Hs.
  assert (H1 : forall st1,
             explanationCacheRef st1 = Some cache -> sourceText st1 = sourceText st ->
             handleExplain st1 = (setExplanationText (explanation cache) st1, [])).
  { intros st1 Hc1 Hs1. unfold handleExplain, jsstring_eqb.
    rewrite Hc1, Hs1, Hs. by rewrite bool_decide_eq_true_2. }
  split; [by apply H1|]. split.
  - rewrite (H1 st) by done. simpl. rewrite H1; by destruct st.
  - split; [|split].
    + intros r. rewrite (H1 st) by done. simpl. apply not_elem_of_nil.
    + intros r.
      rewrite step_without_effect by (simpl; apply toggleExplanation_frame).
      simpl. unfold toggleExplanation. destruct (_ && _); simpl.
      * rewrite H1 by (by destruct st). simpl. apply not_elem_of_nil.
      * apply not_elem_of_nil.
    + intros st0 e. unfold handleExplain, handleExplain_resolved, jsstring_eqb.
      destruct st0; simpl. by rewrite bool_decide_eq_true_2.
Qed.

Lemma explain_is_cached_per_source_witness :
  let asked := (step fresh_state (ChangeSourceText (js "break a leg"))).1 in
  let st := (step asked (ExplainResolved (js "break a leg") (js "An idiom."))).1 in
  let cache := {| source := js "break a leg"; explanation := js "An idiom." |} in
  explanationCacheRef st = Some cache
  /\ source cache = sourceText st
  /\ handleExplain st = (setExplanationText (js "An idiom.") st, []).
Proof.
  cbv zeta. split; [reflexivity|]. split; [reflexivity|].
  apply (explain_is_cached_per_source
           (step (step fresh_state (ChangeSourceText (js "break a leg"))).1
              (ExplainResolved (js "break a leg") (js "An idiom."))).1
           {| source := js "break a leg"; explanation := js "An idiom." |});
    reflexivity.
Defined.

(* ===================================================================== *)
(** * More properties of [App.tsx] *)
(* ===================================================================== *)

(** ** Strings: trimming, splitting and joining *)

Lemma trimStart_app_solid l c m :
  is_js_whitespace c = false ->
  trimStart (l ++ c :: m) = trimStart l ++ c :: m.
Proof.
  intros Hc. induction l as [|x l IH]; simpl; [by rewrite Hc|].
  by destruct (is_js_whitespace x).
Qed.

Lemma trimStart_head s c rest :
  trimStart s = c :: rest -> is_js_whitespace c = false.
Proof.
  induction s as [|x s IH]; simpl; [done|].
  destruct (is_js_whitespace x) eqn:Hx; [done|]. by intros [= <- <-].
Qed.

Lemma trimStart_solid c rest :
  is_js_whitespace c = false -> trimStart (c :: rest) = c :: rest.
Proof. intros H. simpl. by rewrite H. Qed.

(** A trimmed string neither starts nor ends with white space. *)
Lemma trim_head s c rest : trim s = c :: rest -> is_js_whitespace c = false.
Proof.
  unfold trim, trimEnd. destruct (trimStart s) as [|x t] eqn:Ht; [done|].
  pose proof (trimStart_head _ _ _ Ht) as Hx.
  simpl rev. rewrite trimStart_app_solid by done.
  rewrite rev_app_distr. simpl. by intros [= <- _].
Qed.

Lemma trim_last s init c : trim s = init ++ [c] -> is_js_whitespace c = false.
Proof.
  unfold trim, trimEnd. intros H.
  apply (f_equal (@rev N)) in H. rewrite rev_involutive, rev_app_distr in H. simpl in H.
  by apply trimStart_head in H.
Qed.

Lemma trim_idempotent s : trim (trim s) = trim s.
Proof.
  assert (Hs : trimStart (trim s) = trim s).
  { destruct (trim s) as [|c rest] eqn:Ht; [done|].
    apply trimStart_solid. by eapply trim_head. }
  unfold trim at 1. rewrite Hs. unfold trim, trimEnd.
  rewrite rev_involutive. f_equal.
  destruct (trimStart (rev (trimStart s))) as [|c rest] eqn:Ht; [done|].
  apply trimStart_solid. by eapply trimStart_head.
Qed.

Lemma split_on_nonempty sep s : split_on sep s <> [].
Proof. destruct s as [|c s]; simpl; [done|]. destruct (c =? sep)%N; [done|]. by destruct (split_on sep s). Qed.

Lemma split_nl_split_on s : split_nl s = split_on 0x0A s.
Proof. induction s as [|c s IH]; simpl; [done|]. by rewrite IH. Qed.

(** Joining what [split] gave restores the string. *)
Lemma join_split_on sep s : join [sep] (split_on sep s) = s.
Proof.
  induction s as [|c s IH]; simpl; [done|].
  pose proof (split_on_nonempty sep s) as Hne.
  destruct (c =? sep)%N eqn:Hc.
  - apply N.eqb_eq in Hc as ->.
    destruct (split_on sep s) as [|l ls]; [done|]. simpl in *. by rewrite IH.
  - destruct (split_on sep s) as [|l ls]; [done|].
    destruct ls as [|l' ls]; simpl in *; by rewrite <- IH.
Qed.

(** Splitting a join restores the parts, when there is at least one part
    and no part contains the separator. *)
Lemma split_on_join sep parts :
  parts <> [] ->
  Forall (fun p => sep ∉ p) parts ->
  split_on sep (join [sep] parts) = parts.
Proof.
  assert (Hone : forall p, sep ∉ p -> forall rest,
             split_on sep (p ++ sep :: rest) = p :: split_on sep rest).
  { induction p as [|c p IH]; intros Hp rest; simpl.
    - by rewrite N.eqb_refl.
    - apply not_elem_of_cons in Hp as [Hc Hp].
      rewrite (proj2 (N.eqb_neq c sep)) by done. by rewrite IH. }
  assert (Hlast : forall p, sep ∉ p -> split_on sep p = [p]).
  { induction p as [|c p IH]; intros Hp; simpl; [done|].
    apply not_elem_of_cons in Hp as [Hc Hp].
    rewrite (proj2 (N.eqb_neq c sep)) by done. by rewrite IH. }
  induction parts as [|p parts IH]; [done|]. intros _ Hall.
  apply Forall_cons in Hall as [Hp Hall].
  destruct parts as [|q parts]; simpl.
  - by apply Hlast.
  - rewrite Hone by done. f_equal. by apply IH.
Qed.

(** ** Key names and headings *)

(** Inversion of [matches] on a pattern given by its constructors. *)
Ltac invert_matches :=
  repeat match goal with
         | H : matches _ REps _ |- _ => inversion H; subst; clear H
         | H : matches _ RNone _ |- _ => inversion H
         | H : matches _ (RCls _) _ |- _ => inversion H; subst; clear H
         | H : matches _ (RCat _ _) _ |- _ => inversion H; subst; clear H
         | H : matches _ (RAlt _ _) _ |- _ => inversion H; subst; clear H
         end.

Lemma matches_all icase s : matches icase (RStar (RCls CAll)) s.
Proof.
  induction s as [|c s IH]; [constructor|].
  apply (matches_star_cons icase _ [c] s); [by constructor|done].
Qed.

(** [/^##\s+/]: a heading line starts with two number signs and one white
    space character. *)
Lemma is_heading_iff line :
  is_heading line = true
  <-> exists c rest, line = 0x23%N :: 0x23%N :: c :: rest /\ is_js_whitespace c = true.
Proof.
  unfold is_heading, test_prefix. rewrite accepts_matches. split.
  - intros H. cbv [RStr js RPlus fold_right utf8_to_units map list_ascii_of_string
                   N_of_ascii N_of_digits N.ltb N.compare Pos.compare Pos.compare_cont
                   N.add N.mul Pos.add Pos.mul] in H.
    invert_matches.
    repeat match goal with
           | H : cclass_match _ (CLit _) _ = true |- _ =>
               unfold cclass_match, same_char in H; apply N.eqb_eq in H; subst
           end.
    simpl. eauto.
  - intros (c & rest & -> & Hc).
    apply (matches_cat false _ _ [0x23; 0x23; c]%N rest); [|apply matches_all].
    apply (matches_cat false _ _ [0x23; 0x23]%N [c]).
    + apply (matches_cat false _ _ [0x23%N] [0x23%N]); [by constructor|].
      apply (matches_cat false _ _ [0x23%N] []); by constructor.
    + apply (matches_cat false _ _ [c] []); [by constructor|constructor].
Qed.

Ltac solve_literals :=
  repeat match goal with
         | H : cclass_match _ (CLit _) _ = true |- _ =>
             unfold cclass_match, same_char in H; apply N.eqb_eq in H; subst
         | H : cclass_match false (CRange _ _) _ = true |- _ =>
             unfold cclass_match in H; rewrite andb_false_l, orb_false_r in H;
             apply andb_true_iff in H as [?%N.leb_le ?%N.leb_le]
         | H : cclass_match false CDigit _ = true |- _ =>
             unfold cclass_match in H;
             apply andb_true_iff in H as [?%N.leb_le ?%N.leb_le]
         end.

(** No string among the inherited properties: each is an object. *)
Lemma Object_prototype_objects code v :
  (code, v) ∈ Object_prototype ->
  truthy_value v = true /\ (forall k, v <> VString k) /\ (code ∉ specialMap)
  /\ mapKeyToShortcutString code = Some v.
Proof.
  intros Hin.
  assert (Hall : Forall (fun p => truthy_value p.2 = true
                                  /\ (forall k, p.2 <> VString k)
                                  /\ (p.1 ∉ specialMap)
                                  /\ mapKeyToShortcutString p.1 = Some p.2)
                   Object_prototype).
  { unfold Object_prototype.
    repeat (apply List.Forall_cons;
            [split; [reflexivity|]; split; [done|]; split;
             [apply (bool_decide_unpack (_ ∉ specialMap)); by vm_compute
             |by vm_compute]|]).
    apply List.Forall_nil. }
  apply (proj1 (Forall_forall _ _) Hall (code, v) Hin).
Qed.

(** What [mapKeyToShortcutString] accepts, and what it returns for it. *)
Lemma mapKeyToShortcutString_some code v :
  mapKeyToShortcutString code = Some v ->
  (exists c, code = js "Key" ++ [c] /\ (0x41 <= c <= 0x5A)%N /\ v = VString [c])
  \/ (exists c, code = js "Digit" ++ [c] /\ is_digit c /\ v = VString [c])
  \/ (exists d, code = [0x46%N; d] /\ is_digit d /\ v = VString code)
  \/ (exists d1 d2, code = [0x46%N; d1; d2] /\ is_digit d1 /\ is_digit d2
                    /\ v = VString code)
  \/ (code ∈ specialMap /\ v = VString code)
  \/ (code, v) ∈ Object_prototype.
Proof.
  unfold mapKeyToShortcutString, test_whole.
  destruct (accepts false re_Key code) eqn:HK.
  { intros [= <-]. left. apply accepts_matches in HK.
    cbv [re_Key RStr js fold_right utf8_to_units map list_ascii_of_string
         N_of_ascii N_of_digits N.ltb N.compare Pos.compare Pos.compare_cont
         N.add N.mul Pos.add Pos.mul] in HK.
    invert_matches. solve_literals. simpl. eexists. by repeat split. }
  destruct (accepts false re_Digit code) eqn:HD.
  { intros [= <-]. right. left. apply accepts_matches in HD.
    cbv [re_Digit RStr js fold_right utf8_to_units map list_ascii_of_string
         N_of_ascii N_of_digits N.ltb N.compare Pos.compare Pos.compare_cont
         N.add N.mul Pos.add Pos.mul] in HD.
    invert_matches. solve_literals. simpl. eexists. by repeat split. }
  destruct (accepts false re_F code) eqn:HF.
  { intros [= <-]. right. right. apply accepts_matches in HF.
    cbv [re_F RSeq ROpt fold_right] in HF.
    invert_matches; solve_literals; simpl.
    - right. left. do 2 eexists. by repeat split.
    - left. eexists. by repeat split. }
  unfold specialMap_get. case_bool_decide as Hown.
  { simpl. destruct (truthy code); [|done]. intros [= <-]. by do 4 right; left. }
  destruct (List.find _ Object_prototype) as [[name val]|] eqn:Hfind; [|done].
  simpl. destruct (truthy_value val); [|done]. intros [= <-].
  apply List.find_some in Hfind as [Hin Heq]. simpl in Heq.
  unfold jsstring_eqb in Heq. apply bool_decide_eq_true_1 in Heq as ->.
  do 5 right. by apply list_elem_of_In.
Qed.

(** Whatever it returns is truthy, so the capture handler goes on with it. *)
Lemma mapKeyToShortcutString_truthy code v :
  mapKeyToShortcutString code = Some v -> truthy_value v = true.
Proof.
  intros H. apply mapKeyToShortcutString_some in H
    as [(c & -> & Hc & ->)|[(c & -> & Hc & ->)|[(d & -> & Hd & ->)|
        [(d1 & d2 & -> & H1 & H2 & ->)|[[Hin ->]|Hin]]]]]; try done.
  - simpl. destruct code; [|done].
    exfalso. revert Hin. apply (bool_decide_unpack ([] ∉ specialMap)). by vm_compute.
  - by apply Object_prototype_objects in Hin as (? & _).
Qed.

(** A key name that is a string is never empty and never contains the plus
    sign. *)
Lemma mapKeyToShortcutString_name code k :
  mapKeyToShortcutString code = Some (VString k) -> k <> [] /\ 0x2B%N ∉ k.
Proof.
  intros H. apply mapKeyToShortcutString_some in H
    as [(c & -> & Hc & [= ->])|[(c & -> & Hc & [= ->])|[(d & -> & Hd & [= ->])|
        [(d1 & d2 & -> & H1 & H2 & [= ->])|[[Hin [= ->]]|Hin]]]]];
    unfold is_digit in *.
  - split; [done|]. rewrite !elem_of_cons, elem_of_nil. lia.
  - split; [done|]. rewrite !elem_of_cons, elem_of_nil. lia.
  - split; [done|]. rewrite !elem_of_cons, elem_of_nil. lia.
  - split; [done|]. rewrite !elem_of_cons, elem_of_nil. lia.
  - assert (Hall : Forall (fun k => k <> [] /\ 0x2B%N ∉ k) specialMap).
    { apply (bool_decide_unpack
               (Forall (fun k : jsstring => k <> [] /\ 0x2B%N ∉ k) specialMap)).
      by vm_compute. }
    by apply (proj1 (Forall_forall _ _) Hall).
  - apply Object_prototype_objects in Hin as (_ & Hobj & _). by destruct (Hobj k).
Qed.

(** Conversely every such code is accepted. *)
Lemma mapKeyToShortcutString_accepts :
  (forall c, (0x41 <= c <= 0x5A)%N ->
     mapKeyToShortcutString (js "Key" ++ [c]) = Some (VString [c]))
  /\ (forall c, is_digit c ->
        mapKeyToShortcutString (js "Digit" ++ [c]) = Some (VString [c]))
  /\ (forall d, is_digit d ->
        mapKeyToShortcutString [0x46%N; d] = Some (VString [0x46%N; d]))
  /\ (forall d1 d2, is_digit d1 -> is_digit d2 ->
        mapKeyToShortcutString [0x46%N; d1; d2] = Some (VString [0x46%N; d1; d2]))
  /\ (forall code, code ∈ specialMap ->
        mapKeyToShortcutString code = Some (VString code))
  /\ (forall code v, (code, v) ∈ Object_prototype ->
        mapKeyToShortcutString code = Some v).
Proof.
  unfold is_digit. repeat split.
  - intros c [H1%N.leb_le H2%N.leb_le]. unfold mapKeyToShortcutString, test_whole.
    simpl. by rewrite H1, H2.
  - intros c [H1%N.leb_le H2%N.leb_le]. unfold mapKeyToShortcutString, test_whole.
    simpl. by rewrite H1, H2.
  - intros d [H1%N.leb_le H2%N.leb_le]. unfold mapKeyToShortcutString, test_whole.
    simpl. by rewrite H1, H2.
  - intros d1 d2 [H1%N.leb_le H2%N.leb_le] [H3%N.leb_le H4%N.leb_le].
    unfold mapKeyToShortcutString, test_whole.
    simpl. by rewrite H1, H2, H3, H4.
  - intros code Hin.
    assert (Hall : Forall (fun code => mapKeyToShortcutString code = Some (VString code))
                     specialMap).
    { unfold specialMap. simpl map.
      repeat (apply List.Forall_cons; [by vm_compute|]). apply List.Forall_nil. }
    by apply (proj1 (Forall_forall _ _) Hall).
  - intros code v Hin. by apply Object_prototype_objects in Hin as (_ & _ & _ & ?).
Qed.

Lemma shortcut_parts_plain e : Forall (fun p : jsstring => 0x2B%N ∉ p) (shortcut_parts e).
Proof.
  unfold shortcut_parts.
  destruct (ctrlKey e), (shiftKey e), (altKey e), (metaKey e);
    apply (bool_decide_unpack (Forall (fun p : jsstring => 0x2B%N ∉ p) _));
    by vm_compute.
Qed.

Lemma key_name_label isMac code k :
  mapKeyToShortcutString code = Some (VString k) -> shortcut_part_label isMac k = k.
Proof.
  intros H. apply mapKeyToShortcutString_some in H
    as [(c & -> & Hc & [= ->])|[(c & -> & Hc & [= ->])|[(d & -> & Hd & [= ->])|
        [(d1 & d2 & -> & H1 & H2 & [= ->])|[[Hin [= ->]]|Hin]]]]];
    unfold is_digit in *.
  1-4: unfold shortcut_part_label, jsstring_eqb;
       repeat case_bool_decide; try done; destruct isMac; try done;
       exfalso;
       repeat match goal with H : _ = js _ |- _ => vm_compute in H; try discriminate H; injection H as ? end; lia.
  - assert (Hall : Forall (fun k => shortcut_part_label true k = k
                                    /\ shortcut_part_label false k = k) specialMap).
    { apply (bool_decide_unpack
               (Forall (fun k => shortcut_part_label true k = k
                                 /\ shortcut_part_label false k = k) specialMap)).
      by vm_compute. }
    destruct (proj1 (Forall_forall _ _) Hall _ Hin). by destruct isMac.
  - apply Object_prototype_objects in Hin as (_ & Hobj & _). by destruct (Hobj k).
Qed.

(** X1.  A key press in capture mode is either ignored, leaving the state
    and the capture mode as they are (a bare modifier, or a code for which
    [mapKeyToShortcutString] gives [null]), or it ends the capture mode and
    asks for a rebinding to the held modifiers, in the order Ctrl, Shift,
    Alt, Super, followed by what [mapKeyToShortcutString] gave, as [join]
    writes it, joined by plus signs.  When that is a string, a key name, the
    shortcut reads back part by part; a code that names a property of
    [Object.prototype] is not ignored: it ends the capture mode too, with
    the text of that object in the shortcut. *)
Theorem shortcut_capture_outcome `{engine : Engine} (e : KeyboardEvent) (st : AppState) :
  ((shortcut_capture_handler e st = (st, [])
    /\ (key e ∈ modifierKeys \/ mapKeyToShortcutString (code e) = None))
   \/ (exists keyName,
         (key e ∉ modifierKeys)
         /\ mapKeyToShortcutString (code e) = Some keyName
         /\ shortcut_capture_handler e st
            = (setIsCapturingShortcut false st,
               [update_shortcut
                  (join [0x2B%N] (shortcut_parts e ++ [ToString keyName]))])
         /\ (forall k, keyName = VString k ->
               split_on 0x2B (join [0x2B%N] (shortcut_parts e ++ [k]))
               = shortcut_parts e ++ [k])))
  /\ (forall v,
        (code e, v) ∈ Object_prototype ->
        (key e ∉ modifierKeys) ->
        shortcut_capture_handler e st
        = (setIsCapturingShortcut false st,
           [update_shortcut (join [0x2B%N] (shortcut_parts e ++ [ToString v]))])).
Proof.
  split.
  - unfold shortcut_capture_handler. case_bool_decide as Hmod; [left; by auto|].
    destruct (mapKeyToShortcutString (code e)) as [v|] eqn:Hk; [|left; by auto].
    right. exists v. rewrite (mapKeyToShortcutString_truthy _ _ Hk). cbn [negb].
    do 3 (split; [done|]).
    intros k ->. destruct (mapKeyToShortcutString_name _ _ Hk) as [Hne Hplus].
    apply split_on_join; [by destruct (shortcut_parts e)|].
    apply Forall_app. split; [apply shortcut_parts_plain|by apply Forall_singleton].
  - intros v Hin Hmod. unfold shortcut_capture_handler.
    rewrite bool_decide_eq_false_2 by done.
    apply Object_prototype_objects in Hin as (Ht & _ & _ & ->). by rewrite Ht.
Qed.

(** X2.  The display of a shortcut the capture handler composed: each
    modifier by its label and the key name as it is, joined by [" + "], or
    by nothing on a Mac. *)
Theorem formatShortcutDisplay_of_captured
    (isMac : bool) (e : KeyboardEvent) (keyName : jsstring) :
  mapKeyToShortcutString (code e) = Some (VString keyName) ->
  formatShortcutDisplay isMac (join [0x2B%N] (shortcut_parts e ++ [keyName]))
  = join (if isMac then [] else js " + ")
      (map (shortcut_part_label isMac) (shortcut_parts e) ++ [keyName]).
Proof.
  intros Hk. unfold formatShortcutDisplay.
  destruct (mapKeyToShortcutString_name _ _ Hk) as [Hne Hplus].
  rewrite split_on_join.
  - rewrite map_app. cbn [map]. by rewrite (key_name_label isMac _ _ Hk).
  - by destruct (shortcut_parts e).
  - apply Forall_app. split; [apply shortcut_parts_plain|by apply Forall_singleton].
Qed.

Example formatShortcutDisplay_windows :
  formatShortcutDisplay false (js "Ctrl+Super+K") = js "Ctrl + Win + K".
Proof. vm_compute. reflexivity. Qed.
Example formatShortcutDisplay_mac :
  formatShortcutDisplay true (js "Super+Alt+L") = js "⌘⌥L".
Proof. vm_compute. reflexivity. Qed.

(** ** Relative times and language labels *)

(** X3.  [formatTimestamp] of a timestamp that makes a valid date goes by
    the age, [now] minus the time value of the date, in milliseconds: under
    one minute (a date in the future included) it says "just now"; then
    whole minutes from 1 to 59, whole hours from 1 to 23, whole days from 1
    to 6, each rounded down; from seven days on, the date.  The number shown
    is never 0.  A timestamp that makes no valid date reads
    ["Invalid Date"]: every comparison with [NaN] fails.  An integral
    timestamp makes a valid date, with itself as time value, exactly up to
    8.64e15 ms on either side; [NaN] and the infinities make none. *)
Theorem formatTimestamp_by_age
    (toLocaleDateString : Z -> jsstring) (now : Z) (timestamp : Number) :
  let shown := formatTimestamp toLocaleDateString now timestamp in
  match new_Date timestamp with
  | Some t =>
      let age := (now - t)%Z in
      ((age < 60000)%Z -> shown = js "たった今")
      /\ ((60000 <= age < 3600000)%Z ->
          (1 <= age / 60000 <= 59)%Z
          /\ shown = int_toString (age / 60000) ++ js "分前")
      /\ ((3600000 <= age < 86400000)%Z ->
          (1 <= age / 3600000 <= 23)%Z
          /\ shown = int_toString (age / 3600000) ++ js "時間前")
      /\ ((86400000 <= age < 604800000)%Z ->
          (1 <= age / 86400000 <= 6)%Z
          /\ shown = int_toString (age / 86400000) ++ js "日前")
      /\ ((604800000 <= age)%Z -> shown = toLocaleDateString t)
  | None => shown = js "Invalid Date"
  end
  /\ (forall z : Z,
        new_Date (Number_of_Z z)
        = if (Z.abs z <=? 8640000000000000)%Z then Some z else None)
  /\ new_Date NaN = None
  /\ (forall negative, new_Date (Infinity negative) = None).
Proof.
  cbv zeta. split; [|split; [|done]].
  - unfold formatTimestamp. destruct (new_Date timestamp) as [t|]; [|reflexivity].
    cbn [fmap option_fmap option_map number_lt number_text Date_toLocaleDateString].
    set (age := (now - t)%Z).
    pose proof (Z.div_mod age 60000 ltac:(lia)) as Hm.
    pose proof (Z.mod_pos_bound age 60000 ltac:(lia)) as Hmb.
    pose proof (Z.div_mod age 3600000 ltac:(lia)) as Hh.
    pose proof (Z.mod_pos_bound age 3600000 ltac:(lia)) as Hhb.
    pose proof (Z.div_mod age 86400000 ltac:(lia)) as Hd.
    pose proof (Z.mod_pos_bound age 86400000 ltac:(lia)) as Hdb.
    repeat split; intros; try lia;
      repeat match goal with
             | |- context [(?a <? ?b)%Z] => destruct (Z.ltb_spec a b); try lia
             end; done.
  - intros z. unfold new_Date, Number_of_Z, QArith_base.inject_Z.
    cbn [QArith_base.Qnum QArith_base.Qden]. rewrite Z.quot_1_r.
    destruct (Z.ltb_spec (8640000000000000 * 1) (Z.abs z)),
             (Z.leb_spec (Z.abs z) 8640000000000000); try done; lia.
Qed.

Example formatTimestamp_examples :
  map (formatTimestamp (fun _ => js "2024/1/1") 1000000000)
      (map Number_of_Z
         [1000000500; 999999999; 999940000; 996400000; 913600000; 395200000]%Z)
  = [js "たった今"; js "たった今"; js "1分前"; js "1時間前"; js "1日前"; js "2024/1/1"].
Proof. vm_compute. reflexivity. Qed.

Example formatTimestamp_invalid_dates :
  map (formatTimestamp (fun _ => js "2024/1/1") 1000000000)
      [Number_of_Z 8640000000000001; Number_of_Z (-8640000000000001); NaN;
       Infinity false; Infinity true]%Z
  = repeat (js "Invalid Date") 5.
Proof. vm_compute. reflexivity. Qed.

Example new_Date_examples :
  map new_Date
      [Number_of_Z 8640000000000000; Number_of_Z (-8640000000000000);
       Finite (QArith_base.Qmake 3 2); Finite (QArith_base.Qmake (-3) 2)]%Z
  = [Some 8640000000000000; Some (-8640000000000000); Some 1; Some (-1)]%Z.
Proof. vm_compute. reflexivity. Qed.

(** X4.  The language shown on a history entry: the label of the entry of
    [LANGUAGES] with that code, and the code itself when [LANGUAGES] has no
    such entry. *)
Theorem history_language_label_lookup :
  (forall code label, (code, label) ∈ LANGUAGES -> history_language_label code = label)
  /\ (forall code, code ∉ map fst LANGUAGES -> history_language_label code = code).
Proof.
  split.
  - intros code label Hin.
    assert (Hall : Forall (fun l => history_language_label l.1 = l.2) LANGUAGES).
    { apply (bool_decide_unpack
               (Forall (fun l : jsstring * jsstring =>
                          history_language_label l.1 = l.2) LANGUAGES)).
      by vm_compute. }
    by apply (proj1 (Forall_forall _ _) Hall (code, label)).
  - intros code Hout. unfold history_language_label.
    destruct (List.find _ LANGUAGES) as [l|] eqn:Hf; [|done].
    apply find_some in Hf as [Hin Heq]. exfalso. apply Hout.
    unfold jsstring_eqb in Heq. apply bool_decide_eq_true in Heq as <-.
    apply list_elem_of_In in Hin. by apply (list_elem_of_fmap_2 fst) in Hin.
Qed.

(** ** More on [filterEmptySections] *)

(** X5.  The result never starts and never ends with a white space
    character; trimming it again changes nothing. *)
Theorem filterEmptySections_trimmed (markdown : jsstring) :
  (forall c rest, filterEmptySections markdown = c :: rest -> is_js_whitespace c = false)
  /\ (forall init c, filterEmptySections markdown = init ++ [c] -> is_js_whitespace c = false)
  /\ trim (filterEmptySections markdown) = filterEmptySections markdown.
Proof.
  unfold filterEmptySections. repeat split.
  - intros c rest. apply trim_head.
  - intros init c. apply trim_last.
  - apply trim_idempotent.
Qed.

Lemma split_sections_no_heading lines :
  Forall (fun l => is_heading l = false) lines ->
  split_sections lines = (lines, []).
Proof.
  induction 1 as [|l lines Hl _ IH]; [done|]. simpl. by rewrite IH, Hl.
Qed.

(** X6.  A text without any [##] heading line comes back whole, only
    trimmed; in particular the empty text comes back empty. *)
Theorem filterEmptySections_without_headings (markdown : jsstring) :
  Forall (fun l => is_heading l = false) (split_nl markdown) ->
  filterEmptySections markdown = trim markdown.
Proof.
  intros Hno. unfold filterEmptySections.
  rewrite filter_loop_spec, drop_0. unfold kept_lines.
  rewrite split_sections_no_heading by done. simpl.
  rewrite (right_id_L [] (++)), split_nl_split_on.
  change (js (String "010" EmptyString)) with [0x0A%N].
  by rewrite join_split_on.
Qed.

Lemma filterEmptySections_without_headings_witness :
  Forall (fun l => is_heading l = false) (split_nl (js "  ### notes
- none
"))
  /\ filterEmptySections (js "  ### notes
- none
") = js "### notes
- none".
Proof.
  split.
  - apply (bool_decide_unpack (Forall (fun l => is_heading l = false) _)).
    by vm_compute.
  - apply (filterEmptySections_without_headings (js "  ### notes
- none
")).
    apply (bool_decide_unpack (Forall (fun l => is_heading l = false) _)).
    by vm_compute.
Defined.

Lemma kept_lines_sublist lines : kept_lines lines `sublist_of` lines.
Proof.
  unfold kept_lines.
  rewrite <- (split_sections_lossless lines) at 2. unfold unsplit_sections.
  destruct (split_sections lines) as [pre secs]. simpl.
  apply sublist_app; [done|].
  induction secs as [|s secs IH]; [done|]. simpl.
  destruct (existsb substantive s.2); simpl.
  - by apply sublist_skip, sublist_app.
  - by apply sublist_cons, sublist_inserts_l.
Qed.

(** X7.  The lines [filterEmptySections] keeps, before joining them, are
    lines of the input in their order: it removes lines and never adds,
    changes or reorders one; and a kept heading keeps its whole section. *)
Theorem filterEmptySections_only_removes (markdown : jsstring) :
  filter_loop (split_nl markdown) 0 [] `sublist_of` split_nl markdown
  /\ filterEmptySections markdown
     = trim (join [0x0A%N] (filter_loop (split_nl markdown) 0 [])).
Proof.
  split; [|done]. rewrite filter_loop_spec, drop_0. apply kept_lines_sublist.
Qed.

(** ** The component, turn by turn *)

(** The state [handleTranslate] leaves when it issues its request. *)
Lemma handleTranslate_started arg st :
  (handleTranslate arg st).2 <> [] ->
  handleTranslate arg st
  = (setExplanationCacheRef None
       (setExplanationError None
          (setIsExplanationOpen false
             (setExplanationText []
                (setTranslatedText []
                   (setError None (setIsLoading true st)))))),
     (handleTranslate arg st).2).
Proof.
  unfold handleTranslate. destruct (negb (truthy (trim _))); simpl; [done|].
  intros _. by destruct st.
Qed.

Lemma shortcut_capture_cases `{engine : Engine} e st :
  shortcut_capture_handler e st = (st, [])
  \/ exists s, shortcut_capture_handler e st
               = (setIsCapturingShortcut false st, [update_shortcut s]).
Proof.
  unfold shortcut_capture_handler. destruct (bool_decide _); [by left|].
  destruct (mapKeyToShortcutString _) as [k|]; [|by left].
  destruct (negb (truthy_value k)); [by left|]. right. eauto.
Qed.

Lemma toggleExplanation_cases st :
  toggleExplanation st = (setIsExplanationOpen (negb (isExplanationOpen st)) st, [])
  \/ (exists cache,
        isExplanationOpen st = false /\ explanationText st = []
        /\ explanationCacheRef st = Some cache /\ source cache = sourceText st
        /\ toggleExplanation st
           = (setExplanationText (explanation cache) (setIsExplanationOpen true st), []))
  \/ (isExplanationOpen st = false /\ explanationText st = []
      /\ sourceText st <> []
      /\ (forall cache, explanationCacheRef st = Some cache ->
                        source cache <> sourceText st)
      /\ toggleExplanation st
         = (setExplanationText []
              (setExplanationError None
                 (setIsExplanationLoading true (setIsExplanationOpen true st))),
            [explain
               {| ExplainRequest.source_text := sourceText st;
                  ExplainRequest.source_lang := js "auto";
                  ExplainRequest.target_lang := targetLang (settings st);
                  ExplainRequest.provider := provider (settings st);
                  ExplainRequest.endpoint := endpoint (settings st);
                  ExplainRequest.model := model (settings st) |}])).
Proof.
  unfold toggleExplanation, handleExplain, jsstring_eqb.
  destruct st as [src tr ld er ss se sid cap au th hi sh et eo el ee ic iec oc pend].
  simpl. destruct eo; simpl; [by left|].
  destruct et as [|c t]; simpl; [|by left].
  destruct src as [|c s]; simpl; [by left|].
  destruct oc as [cache|]; [case_bool_decide as Hc|].
  - right. left. exists cache. by repeat split.
  - right. right. repeat split; try done. by intros ? [= <-].
  - right. right. by repeat split.
Qed.

(** A turn either ends with its handler, or its handler issued nothing and
    the auto-translate effect ran [handleTranslate] on the new source text,
    which was pending and not blank. *)
Lemma step_cases `{engine : Engine} st ev :
  step st ev = handle ev st
  \/ ((handle ev st).2 = []
      /\ pendingTranslateRef (handle ev st).1 = true
      /\ truthy (trim (sourceText (handle ev st).1)) = true
      /\ (sourceText (handle ev st).1 <> sourceText st
          \/ settingsId (handle ev st).1 <> settingsId st)
      /\ step st ev
         = handleTranslate (Some (sourceText (handle ev st).1))
             (setPendingTranslateRef false (handle ev st).1)
      /\ (step st ev).2 <> []).
Proof.
  destruct (decide (sourceText (handle ev st).1 = sourceText st
                    /\ settingsId (handle ev st).1 = settingsId st)) as [[Hs Hi]|Hch].
  { left. by apply step_without_effect. }
  assert (Hnil : (handle ev st).2 = []).
  { destruct ev; simpl in *;
      unfold toggleAutostart, handleCancelTranslation, handleCancelExplanation,
        handlePaste, handleCopy in *; simpl in *;
      try done; try (exfalso; apply Hch; by destruct st).
    - destruct (isCapturingShortcut st); [|done].
      destruct (shortcut_capture_settings e st) as (_ & ? & ? & _). by destruct Hch.
    - unfold handleKeyDown in *. destruct (_ && _); [|done].
      destruct (handleTranslate_cases None st) as [[_ H]|(_ & _ & ? & _ & ? & _)];
        [by rewrite H|by destruct Hch].
    - destruct (handleTranslate_cases None st) as [[_ H]|(_ & _ & ? & _ & ? & _)];
        [by rewrite H|by destruct Hch].
    - destruct (toggleExplanation_frame st). by destruct Hch. }
  unfold step. destruct (handle ev st) as [st1 cmds1]. simpl in *. subst cmds1.
  unfold auto_translate_effect, auto_translate_deps_changed, jsstring_eqb.
  assert (Hdeps : negb (bool_decide (sourceText st = sourceText st1))
                  || negb (settingsId st =? settingsId st1) = true).
  { destruct (decide (sourceText st = sourceText st1)) as [Hs|Hs].
    - rewrite bool_decide_eq_true_2 by done. simpl.
      destruct (Nat.eqb_spec (settingsId st) (settingsId st1)); [|done].
      exfalso. by apply Hch.
    - by rewrite bool_decide_eq_false_2. }
  rewrite Hdeps.
  destruct (pendingTranslateRef st1) eqn:Hp; simpl; [|by left].
  destruct (truthy (trim (sourceText st1))) eqn:Ht; [|by left].
  right. do 3 (split; [done|]). split.
  { destruct (decide (sourceText st1 = sourceText st)); [right|left; done].
    intros Hi. by apply Hch. }
  assert (Hp2 : sourceText (setPendingTranslateRef false st1) = sourceText st1)
    by by destruct st1.
  destruct (handleTranslate_cases (Some (sourceText st1))
              (setPendingTranslateRef false st1)) as [[Hb _]|(_ & Hc & _)].
  - rewrite Hp2 in Hb. destruct (truthy (sourceText st1)); congruence.
  - destruct (handleTranslate _ _) as [st2 cmds2]. simpl in *. by subst.
Qed.

Ltac frame_close st :=
  repeat split; simpl;
  try done; try lia; try (by destruct st);
  try (intros r Hin; by invert_elem);
  try (intros Hne; exfalso; apply Hne; by destruct st).

(** What a handler can do to the loading, error and cancelling hooks, and
    which commands it can issue: either it is [handleTranslate()] issuing
    its request, or the facts listed. *)
Lemma handle_frame `{engine : Engine} ev st :
  ((exists r, (handle ev st).2 = [translate r])
   /\ handle ev st = handleTranslate None st)
  \/ ((forall r, translate r ∉ (handle ev st).2)
      /\ length (handle ev st).2 <= 1
      /\ (isLoading (handle ev st).1 = true -> isLoading st = true)
      /\ (error (handle ev st).1 = None -> error st = None)
      /\ (isCancelling (handle ev st).1 <> isCancelling st ->
          (ev = ClickCancelTranslation /\ isCancelling (handle ev st).1 = true)
          \/ ((ev = TranslationCancelled \/ ev = CancelTranslationRejected)
              /\ isCancelling (handle ev st).1 = false))
      /\ (forall r, explain r ∈ (handle ev st).2 -> ev = ClickToggleExplanation)
      /\ (explanationCacheRef (handle ev st).1 <> explanationCacheRef st ->
          exists src expl,
            ev = ExplainResolved src expl
            /\ explanationCacheRef (handle ev st).1
               = Some {| source := src; explanation := expl |})
      /\ (autostartEnabled (handle ev st).1 <> autostartEnabled st ->
          ev = SetAutostartResolved (autostartEnabled (handle ev st).1)
          \/ ev = GetAutostartResolved (autostartEnabled (handle ev st).1))).
Proof.
  assert (Hplain : forall st1 : AppState,
             isLoading st1 = isLoading st -> error st1 = error st ->
             isCancelling st1 = isCancelling st ->
             explanationCacheRef st1 = explanationCacheRef st ->
             autostartEnabled st1 = autostartEnabled st ->
             handle ev st = (st1, []) ->
             (forall r, translate r ∉ (handle ev st).2)
             /\ length (handle ev st).2 <= 1
             /\ (isLoading (handle ev st).1 = true -> isLoading st = true)
             /\ (error (handle ev st).1 = None -> error st = None)
             /\ (isCancelling (handle ev st).1 <> isCancelling st ->
                 (ev = ClickCancelTranslation /\ isCancelling (handle ev st).1 = true)
                 \/ ((ev = TranslationCancelled \/ ev = CancelTranslationRejected)
                     /\ isCancelling (handle ev st).1 = false))
             /\ (forall r, explain r ∈ (handle ev st).2 -> ev = ClickToggleExplanation)
             /\ (explanationCacheRef (handle ev st).1 <> explanationCacheRef st ->
                 exists src expl,
                   ev = ExplainResolved src expl
                   /\ explanationCacheRef (handle ev st).1
                      = Some {| source := src; explanation := expl |})
             /\ (autostartEnabled (handle ev st).1 <> autostartEnabled st ->
                 ev = SetAutostartResolved (autostartEnabled (handle ev st).1)
                 \/ ev = GetAutostartResolved (autostartEnabled (handle ev st).1))).
  { intros st1 Hl He Hc Hx Ha ->. simpl. rewrite Hl, He, Hc, Hx, Ha.
    frame_close st. }
  assert (Htr : handle ev st = handleTranslate None st ->
                ((exists r, (handle ev st).2 = [translate r])
                 /\ handle ev st = handleTranslate None st)
                \/ handle ev st = (st, [])).
  { intros Hh. rewrite Hh.
    destruct (handleTranslate_cases None st) as [[_ H]|(_ & H & _)]; [by right|].
    left. eauto. }
  destruct ev; simpl;
    try (right; eapply Hplain; [| | | | |reflexivity]; by destruct st);
    try (right;
         unfold toggleAutostart, toggleAutostart_rejected, update_shortcut_rejected,
           handleTranslate_rejected, handleCancelExplanation, handlePaste,
           handlePaste_rejected, handleCopy, handleCopy_rejected;
         solve [frame_close st]).
  - (* SetAutostartResolved *)
    right. unfold toggleAutostart_resolved. frame_close st.
    intros _. left. by destruct st.
  - (* GetAutostartResolved *)
    right. frame_close st. intros _. right. by destruct st.
  - (* WindowKeydown *)
    right. destruct (isCapturingShortcut st); [|frame_close st].
    destruct (shortcut_capture_cases e st) as [H|[s H]]; rewrite H; frame_close st.
  - (* TextareaKeydown *)
    unfold handleKeyDown. destruct (_ && _); [|right; frame_close st].
    destruct (handleTranslate_cases None st) as [[_ H]|(_ & H & _)].
    + rewrite H. right. frame_close st.
    + left. split; [eauto|done].
  - (* ClickTranslate *)
    destruct (handleTranslate_cases None st) as [[_ H]|(_ & H & _)].
    + rewrite H. right. frame_close st.
    + left. split; [eauto|done].
  - (* TranslateResolved *)
    right. unfold handleTranslate_resolved, addToHistory.
    destruct (truthy _); frame_close st.
  - (* ClickCancelTranslation *)
    right. unfold handleCancelTranslation. frame_close st.
    intros _. left. split; [done|]. by destruct st.
  - (* CancelTranslationRejected *)
    right. unfold handleCancelTranslation_rejected. frame_close st.
    intros _. right. split; [by auto|]. by destruct st.
  - (* ClickToggleExplanation *)
    right.
    destruct (toggleExplanation_cases st)
      as [H|[(c & _ & _ & _ & _ & H)|(_ & _ & _ & _ & H)]]; rewrite H;
      frame_close st.
  - (* ExplainResolved *)
    right. unfold handleExplain_resolved. frame_close st.
    intros _. eexists _, _. split; [done|]. by destruct st.
  - (* TranslationCancelled *)
    right. unfold on_translation_cancelled. frame_close st.
    intros _. right. split; [by auto|]. by destruct st.
  - (* TranslateSelection *)
    right. unfold on_translate_selection. destruct (_ && _); frame_close st.
Qed.

(** [handleTranslate] issues nothing and changes nothing, or issues one
    [translate]. *)
Lemma handleTranslate_outcome arg st :
  handleTranslate arg st = (st, [])
  \/ exists r, (handleTranslate arg st).2 = [translate r].
Proof.
  destruct (handleTranslate_cases arg st) as [[_ H]|(_ & H & _)]; [by left|].
  right. eauto.
Qed.

(** Every turn is of one of two kinds: a translation starts, by the
    handler or by the auto-translate effect after a handler that issued
    nothing; or no translation starts and the turn is its handler. *)
Lemma step_kinds `{engine : Engine} st ev :
  (exists arg st1 r,
      (st1 = st \/ ((handle ev st).2 = [] /\ st1 = setPendingTranslateRef false (handle ev st).1))
      /\ step st ev = handleTranslate arg st1
      /\ (handleTranslate arg st1).2 = [translate r])
  \/ (step st ev = handle ev st /\ forall r, translate r ∉ (handle ev st).2).
Proof.
  destruct (step_cases st ev) as [H|(Hnil & _ & _ & _ & H & Hne)].
  - destruct (handle_frame ev st) as [[[r Hr] Hh]|(Hno & _)].
    + left. exists None, st, r. rewrite H, Hh in *. by auto.
    + right. by split.
  - left.
    destruct (handleTranslate_outcome (Some (sourceText (handle ev st).1))
                (setPendingTranslateRef false (handle ev st).1)) as [Hn|[r Hr]].
    + rewrite H, Hn in Hne. done.
    + eexists _, _, r. split; [right; by split|]. by split.
Qed.

(** X8.  No turn issues more than one backend command. *)
Theorem step_at_most_one_command `{engine : Engine} (st : AppState) (ev : Event) :
  length (step st ev).2 <= 1.
Proof.
  destruct (step_kinds st ev) as [(arg & st1 & r & _ & -> & ->)|[-> _]]; [done|].
  destruct (handle_frame ev st) as [[[r ->] _]|(_ & H & _)]; [done|lia].
Qed.

(** X9.  Whenever a turn issues a [translate] request, it leaves the
    component loading, with the previous error, translation and explanation
    cleared, the explanation card closed and the explanation cache empty. *)
Theorem translation_start_resets `{engine : Engine} (st : AppState) (ev : Event) (r : TranslateRequest.t) :
  translate r ∈ (step st ev).2 ->
  let st' := (step st ev).1 in
  isLoading st' = true
  /\ error st' = None
  /\ translatedText st' = []
  /\ explanationText st' = []
  /\ isExplanationOpen st' = false
  /\ explanationError st' = None
  /\ explanationCacheRef st' = None.
Proof.
  cbv zeta. intros Hin.
  destruct (step_kinds st ev) as [(arg & st1 & r' & _ & Hs & Hr)|[Hs Hno]].
  - rewrite Hs, handleTranslate_started by (by rewrite Hr). simpl. by destruct st1.
  - rewrite Hs in Hin. by apply Hno in Hin.
Qed.

Lemma translation_start_resets_witness :
  let st := (step (step fresh_state (TranslateSelection (js "hello"))).1
               (TranslateRejected (js "connection refused"))).1 in
  let r := {| TranslateRequest.text := js "hello";
              TranslateRequest.source_lang := js "auto";
              TranslateRequest.target_lang := js "Japanese";
              TranslateRequest.provider := ollama;
              TranslateRequest.endpoint := js "http://localhost:11434";
              TranslateRequest.model := js "llama3" |} in
  error st = Some (js "connection refused")
  /\ translate r ∈ (step st ClickTranslate).2
  /\ (isLoading (step st ClickTranslate).1 = true
      /\ error (step st ClickTranslate).1 = None
      /\ translatedText (step st ClickTranslate).1 = []
      /\ explanationText (step st ClickTranslate).1 = []
      /\ isExplanationOpen (step st ClickTranslate).1 = false
      /\ explanationError (step st ClickTranslate).1 = None
      /\ explanationCacheRef (step st ClickTranslate).1 = None).
Proof.
  cbv zeta. split; [reflexivity|].
  assert (Hin : translate
                  {| TranslateRequest.text := js "hello";
                     TranslateRequest.source_lang := js "auto";
                     TranslateRequest.target_lang := js "Japanese";
                     TranslateRequest.provider := ollama;
                     TranslateRequest.endpoint := js "http://localhost:11434";
                     TranslateRequest.model := js "llama3" |}
                ∈ (step (step (step fresh_state (TranslateSelection (js "hello"))).1
                           (TranslateRejected (js "connection refused"))).1
                     ClickTranslate).2)
    by (vm_compute; apply list_elem_of_here).
  split; [exact Hin|].
  apply (translation_start_resets _ _ _ Hin).
Defined.

(** X10.  The loading flag goes up only in a turn that issues a [translate]
    request, and each way a translation ends (resolved, rejected,
    cancelled) takes it down. *)
Theorem loading_flag_lifecycle `{engine : Engine} (st : AppState) :
  (forall ev, isLoading st = false -> isLoading (step st ev).1 = true ->
              exists r, (step st ev).2 = [translate r])
  /\ (forall text lang response now_id now_ts,
        isLoading (step st (TranslateResolved text lang response now_id now_ts)).1 = false)
  /\ (forall e, isLoading (step st (TranslateRejected e)).1 = false)
  /\ isLoading (step st TranslationCancelled).1 = false.
Proof.
  split; [|split; [|split]].
  - intros ev Hoff Hon.
    destruct (step_kinds st ev) as [(arg & st1 & r & _ & -> & ->)|[Hs Hno]]; [eauto|].
    rewrite Hs in Hon.
    destruct (handle_frame ev st) as [[[r Hr] _]|(_ & _ & Hl & _)];
      [rewrite Hs; by eauto|].
    apply Hl in Hon. congruence.
  - intros. rewrite step_without_effect;
      simpl; unfold handleTranslate_resolved, addToHistory;
      destruct (truthy _); by destruct st.
  - intros. rewrite step_without_effect; by destruct st.
  - rewrite step_without_effect; by destruct st.
Qed.

(** X11.  An error message stays until a translation starts: a turn that
    takes the [error] state from a message to [null] issues a [translate]
    request. *)
Theorem error_cleared_only_by_translation_start `{engine : Engine}
    (st : AppState) (ev : Event) (e : jsstring) :
  error st = Some e ->
  error (step st ev).1 = None ->
  exists r, (step st ev).2 = [translate r].
Proof.
  intros He Hnone.
  destruct (step_kinds st ev) as [(arg & st1 & r & _ & -> & ->)|[Hs Hno]]; [eauto|].
  rewrite Hs in Hnone.
  destruct (handle_frame ev st) as [[[r Hr] _]|(_ & _ & _ & Herr & _)].
  - rewrite Hs. eauto.
  - apply Herr in Hnone. congruence.
Qed.

Lemma error_cleared_only_by_translation_start_witness :
  let st := (step (step fresh_state (ChangeSourceText (js "hello"))).1 PasteRejected).1 in
  error st = Some msg_clipboard_read_failed
  /\ error (step st ClickTranslate).1 = None
  /\ exists r, (step st ClickTranslate).2 = [translate r].
Proof.
  cbv zeta. split; [reflexivity|]. split; [reflexivity|].
  apply (error_cleared_only_by_translation_start
           (step (step fresh_state (ChangeSourceText (js "hello"))).1 PasteRejected).1
           ClickTranslate msg_clipboard_read_failed); reflexivity.
Defined.

(** X12.  The cancelling flag of the translation goes up only by the cancel
    button and comes down only by a [translation-cancelled] event or a
    failed [cancel_translation]; no other turn changes it, not even the
    end of the translation or the start of the next one. *)
Theorem cancelling_flag_changes `{engine : Engine} (st : AppState) (ev : Event) :
  isCancelling (step st ev).1 <> isCancelling st ->
  (ev = ClickCancelTranslation /\ isCancelling (step st ev).1 = true)
  \/ ((ev = TranslationCancelled \/ ev = CancelTranslationRejected)
      /\ isCancelling (step st ev).1 = false).
Proof.
  intros Hne.
  assert (Hkeep : forall arg st1, isCancelling (handleTranslate arg st1).1 = isCancelling st1).
  { intros arg st1. destruct (handleTranslate_outcome arg st1) as [->|[r Hr]]; [done|].
    rewrite handleTranslate_started by (by rewrite Hr). by destruct st1. }
  destruct (step_kinds st ev) as [(arg & st1 & r & Hst & Hs & Hr)|[Hs Hno]].
  - rewrite Hs, Hkeep in *. destruct Hst as [->|[Hnil ->]]; [done|].
    assert (Hp : forall s, isCancelling (setPendingTranslateRef false s) = isCancelling s)
      by (by intros []).
    rewrite Hp in *.
    destruct (handle_frame ev st) as [[[r' Hr'] _]|(_ & _ & _ & _ & Hc & _)];
      [congruence|]. by apply Hc.
  - rewrite Hs in *.
    destruct (handle_frame ev st) as [[[r' Hr'] Hh]|(_ & _ & _ & _ & Hc & _)].
    + rewrite Hh, Hkeep in Hne. done.
    + by apply Hc.
Qed.

Lemma cancelling_flag_changes_witness :
  let st := (step (step fresh_state (TranslateSelection (js "hello"))).1
               ClickCancelTranslation).1 in
  isCancelling (step st TranslationCancelled).1 <> isCancelling st
  /\ ((TranslationCancelled = ClickCancelTranslation
       /\ isCancelling (step st TranslationCancelled).1 = true)
      \/ ((TranslationCancelled = TranslationCancelled
           \/ TranslationCancelled = CancelTranslationRejected)
          /\ isCancelling (step st TranslationCancelled).1 = false)).
Proof.
  cbv zeta. split; [vm_compute; discriminate|].
  apply (cancelling_flag_changes
           (step (step fresh_state (TranslateSelection (js "hello"))).1
              ClickCancelTranslation).1 TranslationCancelled).
  vm_compute. discriminate.
Defined.

(** ** Explanations *)

(** X13.  An [explain] request is issued only by the explanation toggle, when
    it opens the card while no explanation text is shown, the source text is
    not empty and the cache does not hold this source text.  The request
    carries the source text, the hint ["auto"] and the current settings, and
    the turn opens the card, raises the loading flag and clears the
    explanation error. *)
Theorem explain_request_shape `{engine : Engine} (st : AppState) (ev : Event) (r : ExplainRequest.t) :
  explain r ∈ (step st ev).2 ->
  ev = ClickToggleExplanation
  /\ isExplanationOpen st = false
  /\ explanationText st = []
  /\ sourceText st <> []
  /\ (forall cache, explanationCacheRef st = Some cache -> source cache <> sourceText st)
  /\ r = {| ExplainRequest.source_text := sourceText st;
            ExplainRequest.source_lang := js "auto";
            ExplainRequest.target_lang := targetLang (settings st);
            ExplainRequest.provider := provider (settings st);
            ExplainRequest.endpoint := endpoint (settings st);
            ExplainRequest.model := model (settings st) |}
  /\ step st ev
     = (setExplanationText []
          (setExplanationError None
             (setIsExplanationLoading true (setIsExplanationOpen true st))),
        [explain r]).
Proof.
  intros Hin.
  destruct (step_kinds st ev) as [(arg & st1 & r' & _ & Hs & Hr)|[Hs _]].
  { rewrite Hs, Hr in Hin. invert_elem. }
  rewrite Hs in *.
  destruct (handle_frame ev st) as [[[r' Hr'] _]|(_ & _ & _ & _ & _ & Hx & _)].
  { rewrite Hr' in Hin. invert_elem. }
  pose proof (Hx _ Hin) as ->. simpl in *.
  destruct (toggleExplanation_cases st)
    as [H|[(c & _ & _ & _ & _ & H)|(Ho & Ht & Hsrc & Hmiss & H)]];
    rewrite H in *; [invert_elem|invert_elem|].
  invert_elem. injection Hin as ->. by repeat split.
Qed.

Lemma explain_request_shape_witness :
  let st := (step (step (step fresh_state (ChangeSourceText (js "break a leg"))).1
                     ClickTranslate).1
               (TranslationChunk (js "がんばって"))).1 in
  let st := (step st (TranslateResolved (js "break a leg") (js "Japanese")
                        {| translated_text := js "がんばって"; detected_lang := None |}
                        1730000000000 1730000000000)).1 in
  let r := {| ExplainRequest.source_text := js "break a leg";
              ExplainRequest.source_lang := js "auto";
              ExplainRequest.target_lang := js "Japanese";
              ExplainRequest.provider := ollama;
              ExplainRequest.endpoint := js "http://localhost:11434";
              ExplainRequest.model := js "llama3" |} in
  explanation_toggle st = Some false
  /\ explain r ∈ (step st ClickToggleExplanation).2
  /\ ClickToggleExplanation = ClickToggleExplanation
  /\ isExplanationOpen st = false.
Proof.
  cbv zeta. split; [reflexivity|].
  match goal with
  | |- ?P /\ _ => assert (Hin : P) by (vm_compute; apply list_elem_of_here)
  end.
  split; [exact Hin|].
  destruct (explain_request_shape _ _ _ Hin) as (H1 & H2 & _). by split.
Defined.

Lemma step_explanation_chunk `{engine : Engine} st payload :
  step st (ExplanationChunk payload) = (on_explanation_chunk payload st, []).
Proof. rewrite step_without_effect; by destruct st. Qed.

Lemma run_explanation_chunks `{engine : Engine} st payloads :
  run st (map ExplanationChunk payloads)
  = setExplanationText (explanationText st ++ concat payloads) st.
Proof.
  revert st. induction payloads as [|p ps IH]; intros st.
  - simpl. rewrite (right_id_L [] (++)). by destruct st.
  - unfold run in *. simpl. rewrite step_explanation_chunk. simpl. rewrite IH.
    unfold on_explanation_chunk. destruct st; simpl.
    by rewrite (assoc_L (++)).
Qed.

(** X14.  Starting from an empty explanation text, after any sequence of
    [explanation-chunk] events the explanation text is the concatenation of
    their payloads in order, and what the open card hands to the markdown
    renderer is [filterEmptySections] of it; nothing is rendered while the
    text is empty. *)
Theorem explanation_chunks_displayed `{engine : Engine} (st : AppState) (payloads : list jsstring) :
  explanationText st = [] ->
  let st' := run st (map ExplanationChunk payloads) in
  explanationText st' = concat payloads
  /\ explanation_markdown st'
     = (if negb (showSettings st) && truthy (translatedText st)
           && isExplanationOpen st && truthy (concat payloads)
        then Some (filterEmptySections (concat payloads)) else None).
Proof.
  intros He. cbv zeta. rewrite run_explanation_chunks, He.
  unfold explanation_markdown. by destruct st.
Qed.

Lemma explanation_chunks_displayed_witness :
  let st := (step (step (step fresh_state (ChangeSourceText (js "break a leg"))).1
                     ClickTranslate).1
               (TranslationChunk (js "がんばって"))).1 in
  let st := (step st ClickToggleExplanation).1 in
  let chunks := [js "## Words
- break a leg: good luck
"; js "## Slang
- N"; js "/A
"] in
  explanationText st = []
  /\ explanation_markdown (run st (map ExplanationChunk chunks))
     = Some (js "## Words
- break a leg: good luck").
Proof.
  cbv zeta. split; [reflexivity|].
  match goal with
  | |- explanation_markdown (run ?st (map ExplanationChunk ?ps)) = _ =>
      destruct (explanation_chunks_displayed st ps eq_refl) as [_ H]
  end.
  rewrite H. vm_compute. reflexivity.
Defined.

(** X15.  The explanation cache is written only when an [explain] resolves,
    with the source text the request was made for and the explanation
    received, and it is emptied only by a turn that starts a translation.  A
    failed or cancelled explanation leaves it as it was. *)
Theorem explanation_cache_changes `{engine : Engine} (st : AppState) (ev : Event) :
  explanationCacheRef (step st ev).1 <> explanationCacheRef st ->
  (exists src expl,
      ev = ExplainResolved src expl
      /\ explanationCacheRef (step st ev).1
         = Some {| source := src; explanation := expl |})
  \/ (explanationCacheRef (step st ev).1 = None
      /\ exists r, (step st ev).2 = [translate r]).
Proof.
  intros Hne.
  destruct (step_kinds st ev) as [(arg & st1 & r & _ & Hs & Hr)|[Hs _]].
  - right. rewrite Hs, Hr. split; [|eauto].
    rewrite handleTranslate_started by (by rewrite Hr). by destruct st1.
  - rewrite Hs in *.
    destruct (handle_frame ev st) as [[[r Hr] Hh]|(_ & _ & _ & _ & _ & _ & Hc & _)].
    + right. rewrite Hr. split; [|eauto]. rewrite Hh.
      rewrite handleTranslate_started by (by rewrite <- Hh, Hr). by destruct st.
    + left. by apply Hc.
Qed.

Lemma explanation_cache_changes_witness :
  let st := (step fresh_state (ChangeSourceText (js "break a leg"))).1 in
  let ev := ExplainResolved (js "break a leg") (js "An idiom.") in
  explanationCacheRef (step st ev).1 <> explanationCacheRef st
  /\ explanationCacheRef (step st ev).1
     = Some {| source := js "break a leg"; explanation := js "An idiom." |}
  /\ ((exists src expl,
          ev = ExplainResolved src expl
          /\ explanationCacheRef (step st ev).1
             = Some {| source := src; explanation := expl |})
      \/ (explanationCacheRef (step st ev).1 = None
          /\ exists r, (step st ev).2 = [translate r])).
Proof.
  cbv zeta. split; [vm_compute; discriminate|]. split; [reflexivity|].
  apply (explanation_cache_changes
           (step fresh_state (ChangeSourceText (js "break a leg"))).1
           (ExplainResolved (js "break a leg") (js "An idiom."))).
  vm_compute. discriminate.
Defined.

(** ** Autostart, history, captured selections, the action button *)

(** X16.  The autostart switch asks the backend for the opposite of the
    current flag and changes nothing yet.  When the request fails the flag
    keeps its value and the failure message, with the error text, goes to
    [error].  The flag changes only when [set_autostart_enabled] or
    [get_autostart_enabled] resolves, to the value that was asked for or
    read. *)
Theorem autostart_flag_changes `{engine : Engine} (st : AppState) :
  step st ClickToggleAutostart
  = (st, [set_autostart_enabled (negb (autostartEnabled st))])
  /\ (forall e,
        autostartEnabled (step st (SetAutostartRejected e)).1 = autostartEnabled st
        /\ error (step st (SetAutostartRejected e)).1 = Some (msg_autostart_failed ++ e))
  /\ (forall ev,
        autostartEnabled (step st ev).1 <> autostartEnabled st ->
        ev = SetAutostartResolved (autostartEnabled (step st ev).1)
        \/ ev = GetAutostartResolved (autostartEnabled (step st ev).1)).
Proof.
  split; [by rewrite step_without_effect|]. split.
  - intros e. rewrite step_without_effect by (by destruct st). by destruct st.
  - intros ev Hne.
    assert (Hkeep : forall arg st1,
               autostartEnabled (handleTranslate arg st1).1 = autostartEnabled st1).
    { intros arg st1. destruct (handleTranslate_outcome arg st1) as [->|[r Hr]]; [done|].
      rewrite handleTranslate_started by (by rewrite Hr). by destruct st1. }
    assert (Hp : forall s, autostartEnabled (setPendingTranslateRef false s)
                           = autostartEnabled s) by (by intros []).
    destruct (step_kinds st ev) as [(arg & st1 & r & Hst & Hs & Hr)|[Hs Hno]].
    + rewrite Hs, Hkeep in *. destruct Hst as [->|[Hnil ->]]; [done|].
      rewrite Hp in *.
      destruct (handle_frame ev st) as [[[r' Hr'] _]|(_ & _ & _ & _ & _ & _ & _ & Ha)];
        [congruence|]. by apply Ha.
    + rewrite Hs in *.
      destruct (handle_frame ev st) as [[[r' Hr'] Hh]|(_ & _ & _ & _ & _ & _ & _ & Ha)].
      * rewrite Hh, Hkeep in Hne. done.
      * by apply Ha.
Qed.

(** X17.  Deleting a history entry removes every entry with that id and
    nothing else: the entries left are those with another id, in their
    order.  No command is issued and no other state changes. *)
Theorem history_delete_removes_id `{engine : Engine} (st : AppState) (id : jsstring) :
  let st' := (step st (ClickDeleteHistory id)).1 in
  step st (ClickDeleteHistory id) = (setHistory (history st') st, [])
  /\ (forall item, item ∈ history st'
                   <-> item ∈ history st /\ HistoryItem.id item <> id)
  /\ history st' `sublist_of` history st
  /\ (Forall (fun item => HistoryItem.id item <> id) (history st) ->
      history st' = history st).
Proof.
  cbv zeta. rewrite step_without_effect by (by destruct st). simpl.
  unfold handleDeleteHistory.
  assert (Hh : history (setHistory
                          (filter (fun item => HistoryItem.id item <> id) (history st)) st)
               = filter (fun item => HistoryItem.id item <> id) (history st))
    by by destruct st.
  rewrite Hh. split; [done|]. split; [|split].
  - intros item. rewrite list_elem_of_filter. tauto.
  - apply sublist_filter.
  - generalize (history st). intros l Hall.
    induction Hall as [|x l Hx _ IH]; [done|].
    rewrite filter_cons. destruct (decide _) as [|Hn]; [by rewrite IH|by destruct Hn].
Qed.

(** X18.  Selecting a history entry, when no captured selection is pending,
    brings back the entry: its source text, its translation and its target
    language; the other settings, the history and the explanation state
    stay, the sidebar closes and no request is issued. *)
Theorem history_select_restores `{engine : Engine} (st : AppState) (item : HistoryItem.t) :
  pendingTranslateRef st = false ->
  let st' := (step st (ClickHistoryItem item)).1 in
  (step st (ClickHistoryItem item)).2 = []
  /\ sourceText st' = HistoryItem.sourceText item
  /\ translatedText st' = HistoryItem.translatedText item
  /\ settings st' = with_targetLang (HistoryItem.targetLang item) (settings st)
  /\ showHistory st' = false
  /\ history st' = history st
  /\ isLoading st' = isLoading st
  /\ explanationText st' = explanationText st
  /\ explanationCacheRef st' = explanationCacheRef st.
Proof.
  intros Hp. cbv zeta.
  assert (Hs : step st (ClickHistoryItem item) = (handleSelectHistory item st, [])).
  { unfold step. simpl. unfold auto_translate_effect.
    assert (Hp' : pendingTranslateRef (handleSelectHistory item st) = false)
      by (destruct st; simpl in *; done).
    rewrite Hp'. simpl. by destruct (auto_translate_deps_changed _ _). }
  rewrite Hs. by destruct st.
Qed.

Lemma history_select_restores_witness :
  let done :=
    (step (step (step fresh_state (ChangeSourceText (js "hello"))).1 ClickTranslate).1
       (TranslateResolved (js "hello") (js "Japanese")
          {| translated_text := js "こんにちは"; detected_lang := None |}
          1730000000000 1730000000001)).1 in
  let edited := (step (step done (ChangeSourceText (js "bye"))).1
                   (ChangeTargetLang (js "French"))).1 in
  exists item,
    history edited = [item]
    /\ pendingTranslateRef edited = false
    /\ sourceText (step edited (ClickHistoryItem item)).1 = js "hello"
    /\ translatedText (step edited (ClickHistoryItem item)).1 = js "こんにちは"
    /\ targetLang (settings (step edited (ClickHistoryItem item)).1) = js "Japanese".
Proof.
  cbv zeta. eexists. split; [reflexivity|]. split; [reflexivity|].
  match goal with
  | |- sourceText (step ?st (ClickHistoryItem ?it)).1 = _ /\ _ =>
      destruct (history_select_restores st it eq_refl) as (_ & H1 & H2 & H3 & _)
  end.
  rewrite H1, H2, H3. repeat split; reflexivity.
Defined.

(** X19.  A captured selection that is not blank and differs from the
    current source text becomes the source text, brings the main page to the
    front and starts exactly one translation of it, with the current
    settings; the pending flag is consumed. *)
Theorem translate_selection_starts_translation `{engine : Engine} (st : AppState) (payload : jsstring) :
  truthy (trim payload) = true ->
  payload <> sourceText st ->
  let st' := (step st (TranslateSelection payload)).1 in
  (step st (TranslateSelection payload)).2 =
    [translate
       {| TranslateRequest.text := payload;
          TranslateRequest.source_lang := js "auto";
          TranslateRequest.target_lang := targetLang (settings st);
          TranslateRequest.provider := provider (settings st);
          TranslateRequest.endpoint := endpoint (settings st);
          TranslateRequest.model := model (settings st) |}]
  /\ sourceText st' = payload
  /\ showSettings st' = false
  /\ pendingTranslateRef st' = false
  /\ isLoading st' = true
  /\ settings st' = settings st.
Proof.
  intros Ht Hne. cbv zeta. unfold step. simpl. unfold on_translate_selection.
  assert (Hp : truthy payload = true).
  { destruct payload; [by vm_compute in Ht|done]. }
  rewrite Ht, Hp. simpl.
  unfold auto_translate_effect, auto_translate_deps_changed, jsstring_eqb.
  destruct st; simpl in *.
  rewrite bool_decide_eq_false_2 by done. simpl. rewrite Ht. simpl.
  unfold handleTranslate. simpl. rewrite Hp, Ht. by simpl.
Qed.

Lemma translate_selection_starts_translation_witness :
  truthy (trim (js " bonjour ")) = true
  /\ js " bonjour " <> sourceText fresh_state
  /\ sourceText (step fresh_state (TranslateSelection (js " bonjour "))).1 = js " bonjour "
  /\ isLoading (step fresh_state (TranslateSelection (js " bonjour "))).1 = true.
Proof.
  split; [reflexivity|]. split; [discriminate|].
  destruct (translate_selection_starts_translation fresh_state (js " bonjour ")
              eq_refl ltac:(discriminate)) as (_ & H1 & _ & _ & H2 & _).
  by split.
Defined.

(** X20.  The action button and its handlers agree.  An enabled Translate
    button always starts a translation of the source text and turns into the
    Cancel button; a disabled one would do nothing.  An enabled Cancel
    button issues [cancel_translation] and is disabled from then on. *)
Theorem action_button_agrees `{engine : Engine} (st : AppState) :
  match action_button st with
  | Some (TranslateButton false) =>
      (step st ClickTranslate).2 =
        [translate
           {| TranslateRequest.text := sourceText st;
              TranslateRequest.source_lang := js "auto";
              TranslateRequest.target_lang := targetLang (settings st);
              TranslateRequest.provider := provider (settings st);
              TranslateRequest.endpoint := endpoint (settings st);
              TranslateRequest.model := model (settings st) |}]
      /\ action_button (step st ClickTranslate).1
         = Some (CancelButton (isCancelling st))
  | Some (TranslateButton true) => step st ClickTranslate = (st, [])
  | Some (CancelButton false) =>
      step st ClickCancelTranslation = (setIsCancelling true st, [cancel_translation])
      /\ action_button (step st ClickCancelTranslation).1 = Some (CancelButton true)
  | Some (CancelButton true) => True
  | None => True
  end.
Proof.
  unfold action_button.
  destruct (showSettings st) eqn:Hss; [done|].
  destruct (isLoading st) eqn:Hl.
  - destruct (isCancelling st) eqn:Hc; [done|].
    rewrite step_without_effect by (by destruct st). simpl.
    unfold handleCancelTranslation. split; [done|].
    destruct st; simpl in *. by subst.
  - destruct (truthy (trim (sourceText st))) eqn:Ht; simpl.
    + rewrite step_without_effect; simpl; unfold handleTranslate; rewrite Ht; simpl;
        try (by destruct st).
      destruct st; simpl in *. by subst.
    + rewrite step_without_effect; simpl; unfold handleTranslate; rewrite Ht; by simpl.
Qed.

(** X21.  What [mapKeyToShortcutString] accepts and returns: a letter key
    gives its letter, a digit key its digit, F followed by one or two digits
    and each of the fifteen named keys give the code itself, all as
    strings; a code that names a property of [Object.prototype] gives that
    property, a function or an object and no string; every other code
    gives [null]. *)
Theorem mapKeyToShortcutString_spec (code : jsstring) (v : JsValue) :
  mapKeyToShortcutString code = Some v
  <-> (exists c, code = js "Key" ++ [c] /\ (0x41 <= c <= 0x5A)%N /\ v = VString [c])
      \/ (exists c, code = js "Digit" ++ [c] /\ (0x30 <= c <= 0x39)%N /\ v = VString [c])
      \/ (exists d, code = [0x46%N; d] /\ (0x30 <= d <= 0x39)%N /\ v = VString code)
      \/ (exists d1 d2, code = [0x46%N; d1; d2]
                        /\ (0x30 <= d1 <= 0x39)%N /\ (0x30 <= d2 <= 0x39)%N
                        /\ v = VString code)
      \/ (code ∈ specialMap /\ v = VString code)
      \/ ((code, v) ∈ Object_prototype /\ forall k, v <> VString k).
Proof.
  split.
  - intros H. apply mapKeyToShortcutString_some in H
      as [H|[H|[H|[H|[H|H]]]]]; auto 7.
    do 5 right. split; [done|]. by apply Object_prototype_objects in H as (_ & ? & _).
  - destruct mapKeyToShortcutString_accepts as (HK & HD & HF1 & HF2 & HS & HO).
    intros [(c & -> & Hc & ->)|[(c & -> & Hc & ->)|[(d & -> & Hd & ->)|
            [(d1 & d2 & -> & H1 & H2 & ->)|[[Hin ->]|[Hin _]]]]]]; auto.
Qed.

(** X22.  A line is a section heading for [filterEmptySections] exactly when
    it starts with two number signs followed by a white space character; a
    [###] heading, an indented heading or [##] alone is an ordinary line. *)
Theorem heading_line_shape (line : jsstring) :
  (is_heading line = true
   <-> exists c rest, line = 0x23%N :: 0x23%N :: c :: rest /\ is_js_whitespace c = true)
  /\ (forall rest, is_heading (js "###" ++ rest) = false)
  /\ (forall c rest, is_js_whitespace c = true -> is_heading (c :: rest) = false)
  /\ is_heading (js "##") = false.
Proof.
  split; [apply is_heading_iff|]. split; [|split].
  - intros rest. apply not_true_is_false. intros H.
    apply is_heading_iff in H as (c & rest' & Heq & Hc). simpl in Heq.
    injection Heq as <- _. done.
  - intros c rest Hc. apply not_true_is_false. intros H.
    apply is_heading_iff in H as (c' & rest' & Heq & _). injection Heq as -> _. done.
  - reflexivity.
Qed.

Lemma formatShortcutDisplay_of_captured_witness :
  let e := {| key := js "k"; code := js "KeyK"; ctrlKey := true;
              shiftKey := false; altKey := false; metaKey := true |} in
  mapKeyToShortcutString (code e) = Some (VString (js "K"))
  /\ join [0x2B%N] (shortcut_parts e ++ [js "K"]) = js "Ctrl+Super+K"
  /\ formatShortcutDisplay false (join [0x2B%N] (shortcut_parts e ++ [js "K"]))
     = js "Ctrl + Win + K"
  /\ formatShortcutDisplay true (join [0x2B%N] (shortcut_parts e ++ [js "K"]))
     = js "⌃⌘K".
Proof.
  cbv zeta. split; [reflexivity|]. split; [reflexivity|]. split.
  - rewrite (formatShortcutDisplay_of_captured false
               {| key := js "k"; code := js "KeyK"; ctrlKey := true;
                  shiftKey := false; altKey := false; metaKey := true |}
               (js "K") eq_refl).
    reflexivity.
  - rewrite (formatShortcutDisplay_of_captured true
               {| key := js "k"; code := js "KeyK"; ctrlKey := true;
                  shiftKey := false; altKey := false; metaKey := true |}
               (js "K") eq_refl).
    reflexivity.
Defined.

(** X23.  A captured selection that is empty or only white space changes
    no state and issues no command, whatever the state. *)
Theorem translate_selection_blank_changes_nothing `{engine : Engine} (st : AppState) (payload : jsstring) :
  trim payload = [] ->
  step st (TranslateSelection payload) = (st, [])
  /\ forall payloads,
       Forall (fun p => trim p = []) payloads ->
       run st (map TranslateSelection payloads) = st.
Proof.
  assert (Hone : forall s p, trim p = [] -> step s (TranslateSelection p) = (s, [])).
  { intros s p Hp. rewrite step_without_effect; simpl; unfold on_translate_selection;
      rewrite Hp; simpl; by rewrite andb_false_r. }
  intros Hp. split; [by apply Hone|].
  intros payloads Hall. unfold run.
  induction Hall as [|p ps Hp1 _ IH]; [done|]. simpl. by rewrite (Hone st p Hp1).
Qed.

Lemma translate_selection_blank_changes_nothing_witness :
  trim (js "  
	") = []
  /\ step fresh_state (TranslateSelection (js "  
	")) = (fresh_state, []).
Proof.
  split; [reflexivity|].
  apply (translate_selection_blank_changes_nothing fresh_state (js "  
	")).
  reflexivity.
Defined.
